(** * PiPico_Drummer: the sequencer, the mixer and the buffer ring of drummer.c

    A shallow embedding of the hardware-independent half of [drummer.c]
    (everything below the line "Everything from here down is non-h/w
    specific", together with the two ring cursors and [dma_handler]) and the
    properties of it that the specification states.

    Conventions.
    - The target is the RP2040 (32-bit ARM, little endian): [int], [int32_t]
      and [size_t] are 32 bits wide.  A C integer is a [Z]; every arithmetic
      operation of the source is written with its 32-bit wrap-around.
    - The global variables of the translation unit are the fields of the
      record [state]; a C function that mutates them is a function
      [state -> state] (and a result, when it returns one).
    - [printf] and the writes to the DMA and I2C registers are not part of
      the model.
    - The five waveform arrays come from headers that are not in the
      repository ([samples/drum_*.h]); they are parameters of the
      development.  So is the table of values that the C library's [sin]
      gives the test tone at the end of [generate_sample]. *)

From Stdlib Require Import ZArith Lia Ascii String.
From Stdlib Require Import Floats.SpecFloat.
From stdpp Require Import base tactics option list relations strings.

#[local] Open Scope Z_scope.

(** ** Machine integers *)

Definition INT_MIN : Z := - 2 ^ 31.
Definition INT_MAX : Z := 2 ^ 31 - 1.

(** The value of a 32-bit two's complement integer that holds [z]. *)
Definition wrap32 (z : Z) : Z := (z + 2 ^ 31) mod 2 ^ 32 - 2 ^ 31.

(** Conversion of an [int] to [size_t] (unsigned, 32 bits). *)
Definition to_size_t (z : Z) : Z := z mod 2 ^ 32.

Definition int_add (a b : Z) : Z := wrap32 (a + b).
Definition int_sub (a b : Z) : Z := wrap32 (a - b).
Definition int_mul (a b : Z) : Z := wrap32 (a * b).

#[global] Arguments wrap32 : simpl never.
#[global] Arguments to_size_t : simpl never.
#[global] Arguments int_add : simpl never.
#[global] Arguments int_sub : simpl never.
#[global] Arguments int_mul : simpl never.

Definition in_int (z : Z) : Prop := INT_MIN <= z <= INT_MAX.
Definition in_int16 (z : Z) : Prop := - 2 ^ 15 <= z < 2 ^ 15.

(** [for (int i = 0; i < n; i++) body(i)], threading the state [s]. *)
Fixpoint for_loop {S : Type} (n : nat) (body : nat -> S -> S) (s : S) : S :=
  match n with
  | O => s
  | S k => body k (for_loop k body s)
  end.

(** Reading [a[i]] for a C [int] index.  An index outside the array is
    undefined behaviour in C; the model reads 0 there. *)
Definition array_get (a : list Z) (i : Z) : Z :=
  if i <? 0 then 0 else default 0 (a !! Z.to_nat i).

(** ** Constants of the program *)

Definition N_BUFFERS : Z := 4.
Definition BUFFER_SIZE : Z := 49.
Definition N_VOICES : nat := 6.
Definition BPM : Z := 155.
Definition BEATS_PER_BAR : Z := 4.
Definition BAR_LEN : Z := 72.
Definition LOOP_BARS : Z := 10.

(** *** [SAMPLE_RATE]

    [#define PIO_I2S_CLKDIV 44.25F] and
    [#define SAMPLE_RATE ((int)(125000000/PIO_I2S_CLKDIV/32/2))]: three
    divisions in IEEE binary32 (the integer operands are converted to
    [float]), then a truncation to [int].  The divisions are computed with
    the Standard Library's specification of IEEE arithmetic at precision 24
    and maximal exponent 128. *)

Definition f32 (m e : Z) : spec_float := binary_normalize 24 128 m e false.
Definition f32_of_int (z : Z) : spec_float := f32 z 0.
Definition f32_div : spec_float -> spec_float -> spec_float := SFdiv 24 128.

(** [(int) f] for a finite [f]: the integer part, rounded towards zero. *)
Definition int_of_f32 (f : spec_float) : Z :=
  match f with
  | S754_finite s m e =>
      let a := match e with
               | Z0 => Z.pos m
               | Z.pos _ => Z.pos m * 2 ^ e
               | Z.neg p => Z.pos m / 2 ^ Z.pos p
               end in
      if s then - a else a
  | _ => 0
  end.

(** 44.25 = 177 / 4. *)
Definition PIO_I2S_CLKDIV : spec_float := f32 177 (-2).

Definition SAMPLE_RATE : Z :=
  int_of_f32
    (f32_div (f32_div (f32_div (f32_of_int 125000000) PIO_I2S_CLKDIV)
                      (f32_of_int 32))
             (f32_of_int 2)).

(** ** Data model *)

(** [struct Sounds]: a waveform and its length in samples. *)
Record Sounds := mkSounds {
  samples : list Z;
  len : Z
}.

(** [struct voice]. *)
Record voice := mkVoice {
  pan : Z;
  volume : Z;
  sample : Z;
  pos : Z;
  emph : Z
}.

#[global] Instance voice_inhabited : Inhabited voice :=
  populate (mkVoice 0 0 0 0 0).
#[global] Instance Sounds_inhabited : Inhabited Sounds :=
  populate (mkSounds [] 0).

Definition set_pos (p : Z) (v : voice) : voice :=
  mkVoice (pan v) (volume v) (sample v) p (emph v).
Definition set_emph (e : Z) (v : voice) : voice :=
  mkVoice (pan v) (volume v) (sample v) (pos v) e.

(** [struct Pattern]: [char pattern[N_VOICES][BAR_LEN]], one row of
    [BAR_LEN] characters for each voice. *)
Record Pattern := mkPattern {
  pattern : list string
}.

(** The globals of [drummer.c]. *)
Record state := mkState {
  buffer : list (list Z);
  buffer_playing : Z;
  buffer_to_fill : Z;
  bar : Z;
  tickOfBar : Z;
  sampleOfTick : Z;
  samplesPerBeat : Z;
  samplesPerTick : Z;
  voices : list voice;
  index1 : Z
}.

Definition set_buffer (b : list (list Z)) (st : state) : state :=
  mkState b (buffer_playing st) (buffer_to_fill st) (bar st) (tickOfBar st)
    (sampleOfTick st) (samplesPerBeat st) (samplesPerTick st) (voices st)
    (index1 st).
Definition set_buffer_playing (x : Z) (st : state) : state :=
  mkState (buffer st) x (buffer_to_fill st) (bar st) (tickOfBar st)
    (sampleOfTick st) (samplesPerBeat st) (samplesPerTick st) (voices st)
    (index1 st).
Definition set_buffer_to_fill (x : Z) (st : state) : state :=
  mkState (buffer st) (buffer_playing st) x (bar st) (tickOfBar st)
    (sampleOfTick st) (samplesPerBeat st) (samplesPerTick st) (voices st)
    (index1 st).
Definition set_bar (x : Z) (st : state) : state :=
  mkState (buffer st) (buffer_playing st) (buffer_to_fill st) x (tickOfBar st)
    (sampleOfTick st) (samplesPerBeat st) (samplesPerTick st) (voices st)
    (index1 st).
Definition set_tickOfBar (x : Z) (st : state) : state :=
  mkState (buffer st) (buffer_playing st) (buffer_to_fill st) (bar st) x
    (sampleOfTick st) (samplesPerBeat st) (samplesPerTick st) (voices st)
    (index1 st).
Definition set_sampleOfTick (x : Z) (st : state) : state :=
  mkState (buffer st) (buffer_playing st) (buffer_to_fill st) (bar st)
    (tickOfBar st) x (samplesPerBeat st) (samplesPerTick st) (voices st)
    (index1 st).
Definition set_samplesPerBeat (x : Z) (st : state) : state :=
  mkState (buffer st) (buffer_playing st) (buffer_to_fill st) (bar st)
    (tickOfBar st) (sampleOfTick st) x (samplesPerTick st) (voices st)
    (index1 st).
Definition set_samplesPerTick (x : Z) (st : state) : state :=
  mkState (buffer st) (buffer_playing st) (buffer_to_fill st) (bar st)
    (tickOfBar st) (sampleOfTick st) (samplesPerBeat st) x (voices st)
    (index1 st).
Definition set_voices (vs : list voice) (st : state) : state :=
  mkState (buffer st) (buffer_playing st) (buffer_to_fill st) (bar st)
    (tickOfBar st) (sampleOfTick st) (samplesPerBeat st) (samplesPerTick st)
    vs (index1 st).
Definition set_index1 (x : Z) (st : state) : state :=
  mkState (buffer st) (buffer_playing st) (buffer_to_fill st) (bar st)
    (tickOfBar st) (sampleOfTick st) (samplesPerBeat st) (samplesPerTick st)
    (voices st) x.

(** ** The static tables *)

(** The initial [voices[N_VOICES]]: pan, volume, sample, pos, emph. *)
Definition voices_init : list voice :=
  [ mkVoice 16 192 0 0 0;
    mkVoice 8 0 1 0 0;
    mkVoice 16 40 2 0 0;
    mkVoice 18 80 3 0 0;
    mkVoice 28 30 4 0 0;
    mkVoice 4 30 0 0 0 ].

Definition pattern0 : Pattern := mkPattern
  [ "1        1                     1    1        1                          ";
    "                                                                        ";
    "                  1                                   1                 ";
    "                                                                        ";
    "1        1        1        1        1        1        1        1        ";
    "                                                                        "
  ]%string.

Definition pattern1 : Pattern := mkPattern
  [ "9                                   1                                   ";
    "                                                                        ";
    "4        1        1        1        3        1        1        1        ";
    "                                                                        ";
    "                                                                        ";
    "                                                                        "
  ]%string.

Definition pattern2 : Pattern := mkPattern
  [ "9                                   1                                   ";
    "         1                 1                 1                 1        ";
    "1                 1                 1                 1                 ";
    "5        1        1        1        1        1                 1        ";
    "5                          1                 1                          ";
    "         1                          4                          1        "
  ]%string.

(** [static const struct Pattern *patterns[LOOP_BARS]] has three
    initialisers; the other seven pointers are null ([None]). *)
Definition patterns : list (option Pattern) :=
  [ Some pattern0; Some pattern1; Some pattern2;
    None; None; None; None; None; None; None ].

Definition bars : list Z := [0; 0; 0; 2; 2; 2; 2; 2; 1; 0].

(** The character [pats[brs[b]]->pattern[i][t]] of the tables [pats] and
    [brs], when every index is inside its array and the pattern pointer is
    not null. *)
Definition cell_in (pats : list (option Pattern)) (brs : list Z)
    (b : Z) (i : nat) (t : Z) : option ascii :=
  if (b <? 0) || (t <? 0) then None else
  k ← brs !! Z.to_nat b;
  if k <? 0 then None else
  p ← mjoin (pats !! Z.to_nat k);
  row ← pattern p !! i;
  String.get (Z.to_nat t) row.

(** [patterns[bars[b]]->pattern[i][t]]: the tables of the program. *)
Definition cell (b : Z) (i : nat) (t : Z) : option ascii :=
  cell_in patterns bars b i t.

(** A [char] promoted to [int]. *)
Definition char_code (c : ascii) : Z := Z.of_nat (nat_of_ascii c).

(** ** An example bank

    Five short waveforms and a constant tone table, on which the model can
    be run.  The theorems hold for every bank and every tone table; these
    are only used to apply them to a concrete program. *)

Definition example_kick : list Z := [0; 9000; -7000; 4000; -1000].
Definition example_clap : list Z := [120; 3000; -3000].
Definition example_snare : list Z := [-40; 5000; -2500; 1200].
Definition example_hihat : list Z := [7; 800; -800; 400; -200; 100].
Definition example_perc : list Z := [0; 0; 2000; -2000].
Definition example_tone (i : Z) : Z := 15000.

(** A pattern that is not one of the program's: its first column holds
    characters that are not digits (['!'] and ['0'] are below ['1'],
    ['x'] and ['~'] above ['9']), next to a space and a ['5']. *)
Definition example_pattern : Pattern := mkPattern
  [ "!                                                                       ";
    "x                                                                       ";
    "0                                                                       ";
    "                                                                        ";
    "5                                                                       ";
    "~                                                                       " ].

Definition example_patterns : list (option Pattern) := [Some example_pattern].
Definition example_bars : list Z := [0].

(** A tone table that is not constant: a ramp over the 400 entries. *)
Definition example_ramp (i : Z) : Z := 75 * i.

(** ** The engine *)

Section Engine.

(** The waveforms of [samples/drum_*.h] ([int16_t] arrays). *)
Variables drum_kick drum_clap drum_snare drum_hihat drum_perc : list Z.

(** [tone i] is the [int16_t] that the test tone assigns to [ret] when
    [index1] is [i]: the conversion of
    [15000.0 * sin((i * 2.0 * 3.142) / 400.0) + 15000.0]. *)
Variable tone : Z -> Z.

(** [sizeof(a)/sizeof(int16_t)] *)
Definition array_len (a : list Z) : Z := Z.of_nat (length a).

Definition sounds : list Sounds :=
  [ mkSounds drum_kick (array_len drum_kick);
    mkSounds drum_clap (array_len drum_clap);
    mkSounds drum_snare (array_len drum_snare);
    mkSounds drum_hihat (array_len drum_hihat);
    mkSounds drum_perc (array_len drum_perc) ].

(** *** [generate_sample] *)

(** The two assignments of a trigger, for the pattern character [c]. *)
Definition trigger (c : ascii) (v : voice) : voice :=
  set_emph (int_mul (int_sub (char_code c) (char_code "1")) 12)
           (set_pos 1 v).

(** Body of the loop under "Start of new tick?", reading the tables
    [pats] and [brs].  A cell that cannot be read (undefined behaviour in
    C) leaves the voice as it is. *)
Definition trigger_body_in (pats : list (option Pattern)) (brs : list Z)
    (i : nat) (st : state) : state :=
  match cell_in pats brs (bar st) i (tickOfBar st) with
  | Some c =>
      if negb (Ascii.eqb c " ")
      then set_voices (alter (trigger c) i (voices st)) st
      else st
  | None => st
  end.

Definition trigger_phase_in (pats : list (option Pattern)) (brs : list Z)
    (st : state) : state :=
  if sampleOfTick st =? 0
  then for_loop N_VOICES (trigger_body_in pats brs) st
  else st.

(** The loop of the program reads [patterns] and [bars]. *)
Definition trigger_body (i : nat) (st : state) : state :=
  trigger_body_in patterns bars i st.

Definition trigger_phase (st : state) : state :=
  trigger_phase_in patterns bars st.

(** Body of the second loop: read the amplitude of voice [i] into the
    local [samples[i]] and advance its cursor.  [sounds[k]] for a [k] past
    the table is undefined behaviour in C; the model reads an empty
    waveform there (no voice of the program has such a [sample]). *)
Definition play_body (i : nat) (s : state * list Z) : state * list Z :=
  let '(st, smp) := s in
  let smp := <[i := 0]> smp in
  let v := voices st !!! i in
  if 0 <=? sample v then
    let snd := sounds !!! Z.to_nat (sample v) in
    let smp := <[i := array_get (samples snd) (pos v)]> smp in
    if negb (pos v =? 0) then
      let p := int_add (pos v) 1 in
      let p := if len snd <=? to_size_t p then 0 else p in
      (set_voices (alter (set_pos p) i (voices st)) st, smp)
    else (st, smp)
  else (st, smp).

Definition play_phase (st : state) : state * list Z :=
  for_loop N_VOICES play_body (st, replicate N_VOICES 0).

(** Body of the mixing loop; [output] is [(output[0], output[1])]. *)
Definition mix_body (st : state) (smp : list Z) (i : nat)
    (output : Z * Z) : Z * Z :=
  let v := voices st !!! i in
  let vol := int_add (emph v) (volume v) in
  let a := default 0 (smp !! i) in
  (int_add (fst output) (int_mul (int_mul vol a) (pan v)),
   int_add (snd output) (int_mul (int_mul vol a) (int_sub 32 (pan v)))).

Definition mix_phase (st : state) (smp : list Z) : Z * Z :=
  for_loop N_VOICES (mix_body st smp) (0, 0).

(** The counters "for where we are in time". *)
Definition advance_transport (st : state) : state :=
  let st := set_sampleOfTick (int_add (sampleOfTick st) 1) st in
  if sampleOfTick st =? samplesPerTick st then
    let st := set_sampleOfTick 0 st in
    let st := set_tickOfBar (int_add (tickOfBar st) 1) st in
    if tickOfBar st =? BAR_LEN then
      let st := set_tickOfBar 0 st in
      let st := set_bar (int_add (bar st) 1) st in
      if bar st =? LOOP_BARS then set_bar 0 st else st
    else st
  else st.

(** [smpl.d1] of the union [smpl_data] once [d2[0]] and [d2[1]] are
    assigned (little endian: [d2[0]] is the low half). *)
Definition smpl_d1 (d2_0 d2_1 : Z) : Z :=
  d2_0 mod 2 ^ 16 + (d2_1 mod 2 ^ 16) * 2 ^ 16.

(** The resetting, reading and post-increment of [index1]. *)
Definition tone_index (st : state) : Z :=
  if 400 <=? index1 st then 0 else index1 st.

Definition generate_sample (st : state) : state * Z :=
  let st := trigger_phase st in
  let '(st, smp) := play_phase st in
  let output := mix_phase st smp in
  let st := advance_transport st in
  let ret := tone (tone_index st) in
  let st := set_index1 (int_add (tone_index st) 1) st in
  (st, smpl_d1 ret ret).

(** The values of [output[0]] and [output[1]] after the mixing loop of a
    call of [generate_sample] in state [st]. *)
Definition frame_output (st : state) : Z * Z :=
  let '(st1, smp) := play_phase (trigger_phase st) in
  mix_phase st1 smp.

(** The word that the statement commented out under "Convert samples back
    to 16 bit" returns:
    [(((output[0] >> 15)&0xFFFF) << 16) + ((output[1] >> 15) & 0xFFFF)],
    in [uint32_t]. *)
Definition mixed_word (output : Z * Z) : Z :=
  (Z.shiftl (Z.land (Z.shiftr (fst output) 15) 65535) 16
   + Z.land (Z.shiftr (snd output) 15) 65535) mod 2 ^ 32.

(** *** [drum_fill_buffer] *)

(** [buffer[f][i] = w]; outside the array nothing is stored. *)
Definition buffer_store (f : Z) (i : nat) (w : Z)
    (b : list (list Z)) : list (list Z) :=
  if f <? 0 then b else alter (fun blk => <[i := w]> blk) (Z.to_nat f) b.

Definition fill_body (i : nat) (st : state) : state :=
  let '(st, w) := generate_sample st in
  set_buffer (buffer_store (buffer_to_fill st) i w (buffer st)) st.

Definition drum_fill_buffer (st : state) : state :=
  if buffer_playing st =? buffer_to_fill st then st
  else
    let st := for_loop (Z.to_nat BUFFER_SIZE) fill_body st in
    set_buffer_to_fill
      (Z.rem (int_add (buffer_to_fill st) 1) N_BUFFERS) st.

(** *** [dma_handler] (its effect on the globals) *)

Definition dma_handler (st : state) : state :=
  if buffer_playing st =? N_BUFFERS - 1
  then set_buffer_playing 0 st
  else set_buffer_playing (int_add (buffer_playing st) 1) st.

(** *** [drum_fill_buffer] and the interrupt

    [dma_handler] is the handler of [DMA_IRQ_0]: it can run at any point
    of a call of [drum_fill_buffer], which reads the [volatile]
    [buffer_playing] once, in its test.  The handler writes
    [buffer_playing] only and the loop never reads it, so an interleaving is
    given by the number of interrupts taken before each store: [irq i] of
    them between the test (for [i = 0]) or the store of iteration [i - 1]
    and the store of iteration [i], and [irq BUFFER_SIZE] between the last
    store and the assignment to [buffer_to_fill]. *)
Definition interrupts (k : nat) (st : state) : state :=
  Nat.iter k dma_handler st.

Definition fill_body_irq (irq : nat -> nat) (i : nat) (st : state) : state :=
  fill_body i (interrupts (irq i) st).

Definition drum_fill_buffer_irq (irq : nat -> nat) (st : state) : state :=
  if buffer_playing st =? buffer_to_fill st then st
  else
    let st := for_loop (Z.to_nat BUFFER_SIZE) (fill_body_irq irq) st in
    let st := interrupts (irq (Z.to_nat BUFFER_SIZE)) st in
    set_buffer_to_fill
      (Z.rem (int_add (buffer_to_fill st) 1) N_BUFFERS) st.

(** *** [main] *)

(** The globals when [main] is entered. *)
Definition program_start : state :=
  mkState (replicate (Z.to_nat N_BUFFERS)
                     (replicate (Z.to_nat BUFFER_SIZE) 0))
          0 0 0 0 0 0 0 voices_init 0.

(** "Calculate the timing parameters" *)
Definition main_timing (st : state) : state :=
  let st := set_samplesPerBeat (Z.quot (int_mul SAMPLE_RATE 60) BPM) st in
  set_samplesPerTick
    (Z.quot (int_mul (samplesPerBeat st) BEATS_PER_BAR) BAR_LEN) st.

(** "... and fill all the buffers" *)
Definition main_prime (st : state) : state :=
  let st := set_buffer_playing (-1) st in
  let st := for_loop (Z.to_nat N_BUFFERS) (fun _ => drum_fill_buffer) st in
  set_buffer_playing (N_BUFFERS - 1) st.

(** [main] up to the [while (true)] loop. *)
Definition main_startup (st : state) : state :=
  dma_handler (main_prime (main_timing st)).

(** After the start-up the program is the loop
    [while (true) drum_fill_buffer();], interrupted by [dma_handler].  A
    step is a whole call or an interrupt: interrupts taken inside a call
    are those of [drum_fill_buffer_irq], and they leave the state that the
    call followed by the same interrupts leaves. *)
Inductive step : state -> state -> Prop :=
| step_fill st : step st (drum_fill_buffer st)
| step_irq st : step st (dma_handler st).

(** [n] consecutive calls of [generate_sample]: the state reached and
    the word returned by the last call. *)
Definition next (st : state) : state := fst (generate_sample st).
Definition emitted (st : state) : Z := snd (generate_sample st).
Definition run (n : nat) (st : state) : state := Nat.iter n next st.

(** *** Notions used in the statements *)

(** The playback position. *)
Definition transport (st : state) : Z * Z * Z :=
  (bar st, tickOfBar st, sampleOfTick st).

Definition transport_inv (st : state) : Prop :=
  0 <= sampleOfTick st < samplesPerTick st /\
  0 <= tickOfBar st < BAR_LEN /\
  0 <= bar st < LOOP_BARS.

(** Frames played since the top of the arrangement, and the length of the
    arrangement in frames. *)
Definition frame_number (st : state) : Z :=
  (bar st * BAR_LEN + tickOfBar st) * samplesPerTick st + sampleOfTick st.
Definition loop_frames (st : state) : Z :=
  LOOP_BARS * BAR_LEN * samplesPerTick st.

(** The character that triggers voice [i] in the call made in state [st],
    if there is one. *)
Definition trigger_char (st : state) (i : nat) : option ascii :=
  if sampleOfTick st =? 0 then
    match cell (bar st) i (tickOfBar st) with
    | Some c => if negb (Ascii.eqb c " ") then Some c else None
    | None => None
    end
  else None.

Definition triggered (st : state) (i : nat) : bool :=
  bool_decide (is_Some (trigger_char st i)).

(** What the first loop does to voice [i]. *)
Definition after_trigger (st : state) (i : nat) (v : voice) : voice :=
  match trigger_char st i with
  | Some c => trigger c v
  | None => v
  end.

(** What the second loop reads from a voice and does to it. *)
Definition amplitude (v : voice) : Z :=
  if 0 <=? sample v
  then array_get (samples (sounds !!! Z.to_nat (sample v))) (pos v)
  else 0.

Definition played (v : voice) : voice :=
  if 0 <=? sample v then
    if negb (pos v =? 0) then
      let p := int_add (pos v) 1 in
      set_pos (if len (sounds !!! Z.to_nat (sample v)) <=? to_size_t p
               then 0 else p) v
    else v
  else v.

(** The share of a voice with amplitude [a] in each channel, and the sum
    of the shares of the [N_VOICES] voices, in unbounded integers. *)
Definition contrib_left (v : voice) (a : Z) : Z :=
  (emph v + volume v) * a * pan v.
Definition contrib_right (v : voice) (a : Z) : Z :=
  (emph v + volume v) * a * (32 - pan v).

Definition mix_sum (f : voice -> Z -> Z) (vs : list voice)
    (smp : list Z) : Z :=
  for_loop N_VOICES
    (fun i acc => acc + f (vs !!! i) (default 0 (smp !! i))) 0.

(** The amplitudes [samples[0..N_VOICES-1]] of a call, and the state of
    the voices when the mixing loop runs. *)
Definition frame_amplitudes (st : state) : list Z :=
  snd (play_phase (trigger_phase st)).
Definition frame_voices (st : state) : list voice :=
  voices (fst (play_phase (trigger_phase st))).

(** The block [buffer[k]] for a C [int] index. *)
Definition block_at (st : state) (k : Z) : option (list Z) :=
  if k <? 0 then None else buffer st !! Z.to_nat k.

(** The words returned by the next [n] calls of [generate_sample]. *)
Definition frames (n : nat) (st : state) : list Z :=
  map (fun k => emitted (run k st)) (seq 0 n).

(** The counter invariant of the test tone. *)
Definition index1_inv (st : state) : Prop := 0 <= index1 st <= 400.

(** The ring ([buffer], [buffer_playing], [buffer_to_fill]) replaced, and
    the rest of a state: the sequencer with a blank ring. *)
Definition set_ring (b : list (list Z)) (p f : Z) (st : state) : state :=
  mkState b p f (bar st) (tickOfBar st) (sampleOfTick st)
    (samplesPerBeat st) (samplesPerTick st) (voices st) (index1 st).
Definition sequencer (st : state) : state := set_ring [] 0 0 st.

(** The words stored in a block by the loop of [drum_fill_buffer], and
    that loop seen from the buffers. *)
Definition write_block (n : nat) (st : state) (blk : list Z) : list Z :=
  for_loop n (fun i blk => <[i := emitted (run i st)]> blk) blk.
Definition write_buffer (n : nat) (st : state)
    (b : list (list Z)) : list (list Z) :=
  for_loop n
    (fun i b => buffer_store (buffer_to_fill st) i (emitted (run i st)) b) b.

(** The state in which the store of iteration [i] of the loop of
    [drum_fill_buffer] is made, in a call that has passed the test. *)
Definition at_store (irq : nat -> nat) (i : nat) (st : state) : state :=
  interrupts (irq i) (for_loop i (fill_body_irq irq) st).

(** The call makes a store into the block that [buffer_playing] designates
    when the store is made. *)
Definition writes_play_block (irq : nat -> nat) (st : state) : bool :=
  negb (buffer_playing st =? buffer_to_fill st) &&
  existsb (fun i => buffer_playing (at_store irq i st)
                    =? buffer_to_fill (at_store irq i st))
          (seq 0 (Z.to_nat BUFFER_SIZE)).

(** The interrupts taken before iteration [n]. *)
Definition irq_count (irq : nat -> nat) (n : nat) : nat :=
  for_loop n (fun i k => (irq i + k)%nat) 0%nat.

(** *** Notions used in the further properties *)

(** A trigger digit, ['1'] to ['9'], and a row made of spaces and trigger
    digits only. *)
Definition trigger_digit (c : ascii) : bool :=
  (char_code "1" <=? char_code c) && (char_code c <=? char_code "9").
Definition row_ok (row : string) : bool :=
  forallb (fun c => Ascii.eqb c " " || trigger_digit c)
          (list_ascii_of_string row).

(** The [int16_t] members [d2[0]] and [d2[1]] of the union [smpl_data],
    read back from its [uint32_t] member [d1]. *)
Definition int16_of_half (h : Z) : Z := if h <? 2 ^ 15 then h else h - 2 ^ 16.
Definition smpl_d2_0 (d1 : Z) : Z := int16_of_half (d1 mod 2 ^ 16).
Definition smpl_d2_1 (d1 : Z) : Z := int16_of_half (d1 / 2 ^ 16).

(** A waveform that the program can play: at least two samples (a trigger
    starts reading at index 1), a length that an [int] holds, [int16_t]
    values. *)
Definition waveform_ok (a : list Z) : Prop :=
  2 <= array_len a <= INT_MAX /\ Forall in_int16 a.
Definition bank_ok : Prop :=
  waveform_ok drum_kick /\ waveform_ok drum_clap /\ waveform_ok drum_snare /\
  waveform_ok drum_hihat /\ waveform_ok drum_perc.

(** What holds of the voices of this program: the ranges of the table
    [voices], the emphasis of a trigger digit, a cursor inside the
    waveform. *)
Definition voice_inv (v : voice) : Prop :=
  0 <= pan v <= 32 /\ 0 <= volume v <= 192 /\ 0 <= sample v < 5 /\
  0 <= emph v <= 96 /\
  0 <= pos v < len (sounds !!! Z.to_nat (sample v)).
Definition voices_inv (st : state) : Prop :=
  length (voices st) = N_VOICES /\ Forall voice_inv (voices st).

(** [z] when an [int] can hold it: signed overflow is undefined in C. *)
Definition int_checked (z : Z) : option Z :=
  if (INT_MIN <=? z) && (z <=? INT_MAX) then Some z else None.

(** The mixing loop with every [int] operation checked: [None] as soon as
    one of them overflows. *)
Definition mix_body_checked (st : state) (smp : list Z) (i : nat)
    (output : option (Z * Z)) : option (Z * Z) :=
  o ← output;
  let v := voices st !!! i in
  let a := default 0 (smp !! i) in
  vol ← int_checked (emph v + volume v);
  m ← int_checked (vol * a);
  l ← int_checked (m * pan v);
  out0 ← int_checked (fst o + l);
  q ← int_checked (32 - pan v);
  r ← int_checked (m * q);
  out1 ← int_checked (snd o + r);
  Some (out0, out1).

Definition mix_phase_checked (st : state) (smp : list Z) : option (Z * Z) :=
  for_loop N_VOICES (mix_body_checked st smp) (Some (0, 0)).

(** The share of a voice in the two channels together. *)
Definition contrib_total (v : voice) (a : Z) : Z :=
  (emph v + volume v) * a * 32.

(** The ring as the program keeps it: both cursors inside the array of
    [N_BUFFERS] blocks of [BUFFER_SIZE] words. *)
Definition ring_inv (st : state) : Prop :=
  0 <= buffer_to_fill st < N_BUFFERS /\
  0 <= buffer_playing st < N_BUFFERS /\
  length (buffer st) = Z.to_nat N_BUFFERS /\
  Forall (fun blk => length blk = Z.to_nat BUFFER_SIZE) (buffer st).

(** The index of the block whose address a call of [dma_handler] in state
    [st] passes to [dma_channel_set_read_addr]: [buffer[buffer_playing]],
    read before the cursor is incremented. *)
Definition dma_read_block (st : state) : Z := buffer_playing st.

(** [k] consecutive calls of [drum_fill_buffer], without an interrupt. *)
Definition fills (k : nat) (st : state) : state :=
  Nat.iter k drum_fill_buffer st.

(** The states of the program once [main] is in its loop. *)
Definition reachable (st : state) : Prop :=
  rtc step (main_startup program_start) st.

(** [m] blocks have been generated since the timing was set, and the ring
    holds the last [N_BUFFERS] of them, block [j] of the stream in
    [buffer[j mod N_BUFFERS]]. *)
Definition ring_holds (m : Z) (st : state) : Prop :=
  N_BUFFERS <= m /\
  sequencer st =
    sequencer (run (Z.to_nat (BUFFER_SIZE * m)) (main_timing program_start)) /\
  buffer_to_fill st = m mod N_BUFFERS /\
  forall j, m - N_BUFFERS <= j < m ->
    buffer st !! Z.to_nat (j mod N_BUFFERS) =
    Some (frames (Z.to_nat BUFFER_SIZE)
            (run (Z.to_nat (BUFFER_SIZE * j)) (main_timing program_start))).

(** ** Machine arithmetic: facts *)

(** Goals and hypotheses about the range of an [int]. *)
Ltac int_range := unfold in_int, in_int16, INT_MIN, INT_MAX in *; lia.

Lemma wrap32_id z : in_int z -> wrap32 z = z.
Proof.
  intros H. unfold wrap32. rewrite Z.mod_small by int_range. lia.
Qed.

Lemma wrap32_in_int z : in_int (wrap32 z).
Proof.
  unfold wrap32. pose proof (Z.mod_pos_bound (z + 2 ^ 31) (2 ^ 32)).
  int_range.
Qed.

(** [wrap32 z] differs from [z] by a multiple of 2^32. *)
Lemma wrap32_decompose z : exists k, wrap32 z = z + k * 2 ^ 32.
Proof.
  exists (- ((z + 2 ^ 31) / 2 ^ 32)). unfold wrap32.
  rewrite Z.mod_eq by lia. lia.
Qed.

Lemma wrap32_shift z k : wrap32 (z + k * 2 ^ 32) = wrap32 z.
Proof.
  unfold wrap32. replace (z + k * 2 ^ 32 + 2 ^ 31) with (z + 2 ^ 31 + k * 2 ^ 32) by lia.
  now rewrite Z_mod_plus_full.
Qed.

Lemma wrap32_add_l a b : wrap32 (wrap32 a + b) = wrap32 (a + b).
Proof.
  destruct (wrap32_decompose a) as [k ->].
  replace (a + k * 2 ^ 32 + b) with (a + b + k * 2 ^ 32) by lia.
  apply wrap32_shift.
Qed.

Lemma wrap32_add_r a b : wrap32 (a + wrap32 b) = wrap32 (a + b).
Proof. rewrite Z.add_comm, wrap32_add_l. f_equal. lia. Qed.

Lemma wrap32_mul_l a b : wrap32 (wrap32 a * b) = wrap32 (a * b).
Proof.
  destruct (wrap32_decompose a) as [k ->].
  replace ((a + k * 2 ^ 32) * b) with (a * b + (k * b) * 2 ^ 32) by lia.
  apply wrap32_shift.
Qed.

Lemma wrap32_mul_r a b : wrap32 (a * wrap32 b) = wrap32 (a * b).
Proof. rewrite Z.mul_comm, wrap32_mul_l. f_equal. lia. Qed.

Lemma wrap32_sub_r a b : wrap32 (a - wrap32 b) = wrap32 (a - b).
Proof.
  destruct (wrap32_decompose b) as [k ->].
  replace (a - (b + k * 2 ^ 32)) with (a - b + (- k) * 2 ^ 32) by lia.
  apply wrap32_shift.
Qed.

Lemma wrap32_congr a b k : a = b + k * 2 ^ 32 -> wrap32 a = wrap32 b.
Proof. intros ->. apply wrap32_shift. Qed.

(** One round of the mixing loop, for each channel. *)
Lemma mix_step_left acc e v a p :
  int_add (wrap32 acc) (int_mul (int_mul (int_add e v) a) p) =
  wrap32 (acc + (e + v) * a * p).
Proof.
  unfold int_add, int_mul.
  destruct (wrap32_decompose acc) as [k0 ->].
  destruct (wrap32_decompose (e + v)) as [k1 ->].
  destruct (wrap32_decompose ((e + v + k1 * 2 ^ 32) * a)) as [k2 ->].
  destruct (wrap32_decompose (((e + v + k1 * 2 ^ 32) * a + k2 * 2 ^ 32) * p))
    as [k3 ->].
  apply (wrap32_congr _ _ (k0 + k1 * a * p + k2 * p + k3)). ring.
Qed.

Lemma mix_step_right acc e v a p :
  int_add (wrap32 acc) (int_mul (int_mul (int_add e v) a) (int_sub 32 p)) =
  wrap32 (acc + (e + v) * a * (32 - p)).
Proof.
  unfold int_add, int_mul, int_sub.
  destruct (wrap32_decompose acc) as [k0 ->].
  destruct (wrap32_decompose (e + v)) as [k1 ->].
  destruct (wrap32_decompose ((e + v + k1 * 2 ^ 32) * a)) as [k2 ->].
  destruct (wrap32_decompose (32 - p)) as [k4 ->].
  destruct (wrap32_decompose
    (((e + v + k1 * 2 ^ 32) * a + k2 * 2 ^ 32) * (32 - p + k4 * 2 ^ 32)))
    as [k3 ->].
  apply (wrap32_congr _ _
    (k0 + k3 + ((e + v + k1 * 2 ^ 32) * a + k2 * 2 ^ 32) * k4
     + (k1 * a + k2) * (32 - p))).
  ring.
Qed.

Lemma int_add_small a b : in_int (a + b) -> int_add a b = a + b.
Proof. apply wrap32_id. Qed.

(** ** Loops: facts *)

Lemma for_loop_ind {S : Type} (P : S -> Prop) (n : nat) (body : nat -> S -> S) s :
  P s ->
  (forall i x, (i < n)%nat -> P x -> P (body i x)) ->
  P (for_loop n body s).
Proof.
  intros H0 Hstep. induction n as [|n IH]; simpl; [exact H0|].
  apply Hstep; [lia|]. apply IH. intros i x Hi. apply Hstep. lia.
Qed.

(** ** The three loops of [generate_sample], voice by voice *)

Lemma trigger_loop_in pats brs n st :
  exists vs,
    for_loop n (trigger_body_in pats brs) st = set_voices vs st /\
    forall j, vs !! j =
      if decide (j < n)%nat
      then (fun v => match cell_in pats brs (bar st) j (tickOfBar st) with
                     | Some c => if negb (Ascii.eqb c " ") then trigger c v else v
                     | None => v
                     end) <$> voices st !! j
      else voices st !! j.
Proof.
  induction n as [|n (vs & Hst & Hvs)]; cbn [for_loop].
  - exists (voices st). split; [by destruct st|]. intros j. case_decide; [lia|done].
  - rewrite Hst. unfold trigger_body_in; cbn [bar tickOfBar voices set_voices].
    destruct (cell_in pats brs (bar st) n (tickOfBar st)) as [c|] eqn:Hc;
      [destruct (negb (Ascii.eqb c " ")) eqn:Hsp|].
    + exists (alter (trigger c) n vs). split; [done|].
      intros j. destruct (decide (j = n)) as [->|Hjn].
      * rewrite list_lookup_alter_eq, Hvs, Hc, Hsp.
        rewrite !decide_False, decide_True by lia. done.
      * rewrite list_lookup_alter_ne, Hvs by done.
        repeat case_decide; try lia; done.
    + exists vs. split; [done|]. intros j. rewrite Hvs.
      destruct (decide (j = n)) as [->|Hjn].
      * rewrite Hc, Hsp, decide_False, decide_True by lia.
        by destruct (voices st !! n).
      * repeat case_decide; try lia; done.
    + exists vs. split; [done|]. intros j. rewrite Hvs.
      destruct (decide (j = n)) as [->|Hjn].
      * rewrite Hc, decide_False, decide_True by lia.
        by destruct (voices st !! n).
      * repeat case_decide; try lia; done.
Qed.

(** What the trigger loop does to voice [i], whatever the tables. *)
Lemma trigger_phase_in_lookup pats brs st i :
  (i < N_VOICES)%nat ->
  voices (trigger_phase_in pats brs st) !! i =
    (fun v =>
       if sampleOfTick st =? 0 then
         match cell_in pats brs (bar st) i (tickOfBar st) with
         | Some c => if negb (Ascii.eqb c " ") then trigger c v else v
         | None => v
         end
       else v) <$> voices st !! i.
Proof.
  intros Hi. unfold trigger_phase_in.
  destruct (sampleOfTick st =? 0).
  - destruct (trigger_loop_in pats brs N_VOICES st) as (vs & -> & Hvs). simpl.
    rewrite Hvs. by rewrite decide_True by done.
  - by destruct (voices st !! i).
Qed.

Lemma trigger_loop n st :
  exists vs,
    for_loop n trigger_body st = set_voices vs st /\
    forall j, vs !! j =
      if decide (j < n)%nat
      then (fun v => match cell (bar st) j (tickOfBar st) with
                     | Some c => if negb (Ascii.eqb c " ") then trigger c v else v
                     | None => v
                     end) <$> voices st !! j
      else voices st !! j.
Proof. exact (trigger_loop_in patterns bars n st). Qed.

Lemma trigger_phase_voices st :
  trigger_phase st = set_voices (voices (trigger_phase st)) st.
Proof.
  unfold trigger_phase, trigger_phase_in.
  destruct (sampleOfTick st =? 0); [|by destruct st].
  destruct (trigger_loop_in patterns bars N_VOICES st) as (vs & -> & _). done.
Qed.

Lemma trigger_phase_lookup st i :
  (i < N_VOICES)%nat ->
  voices (trigger_phase st) !! i = after_trigger st i <$> voices st !! i.
Proof.
  intros Hi. unfold trigger_phase. rewrite trigger_phase_in_lookup by done.
  unfold after_trigger, trigger_char, cell.
  destruct (voices st !! i); simpl; [|done].
  destruct (sampleOfTick st =? 0); [|done].
  destruct (cell_in _ _ _ _ _) as [c|]; [|done]. by destruct (negb _).
Qed.

Lemma play_loop n st smp0 :
  exists vs smp,
    for_loop n play_body (st, smp0) = (set_voices vs st, smp) /\
    (forall j, vs !! j =
       if decide (j < n)%nat then played <$> voices st !! j
       else voices st !! j) /\
    length smp = length smp0 /\
    (forall j, (j < length smp0)%nat -> smp !! j =
       if decide (j < n)%nat then Some (amplitude (voices st !!! j))
       else smp0 !! j).
Proof.
  induction n as [|n (vs & smp & Hst & Hvs & Hlen & Hsmp)]; cbn [for_loop].
  - exists (voices st), smp0. split; [by destruct st|].
    split; [intros j; case_decide; [lia|done]|].
    split; [done|]. intros j _. case_decide; [lia|done].
  - rewrite Hst. unfold play_body; cbn [voices set_voices].
    assert (Hvn : vs !!! n = voices st !!! n).
    { rewrite !list_lookup_total_alt, Hvs. case_decide; [lia|done]. }
    rewrite Hvn. set (v := voices st !!! n).
    assert (Hother : forall (f : voice -> voice) j,
      (forall x, voices st !! n = Some x -> f x = played x) ->
      alter f n vs !! j =
      if decide (j < S n)%nat then played <$> voices st !! j
      else voices st !! j).
    { intros f j Hf. destruct (decide (j = n)) as [->|Hjn].
      - rewrite list_lookup_alter_eq, Hvs, decide_False, decide_True by lia.
        destruct (voices st !! n) as [x|] eqn:Hx; simpl; [|done].
        by rewrite Hf.
      - rewrite list_lookup_alter_ne, Hvs by done.
        repeat case_decide; try lia; done. }
    assert (Hv : forall x, voices st !! n = Some x -> x = v).
    { intros x Hx. unfold v. by rewrite list_lookup_total_alt, Hx. }
    assert (Hamp : forall (a : Z) (s : list Z), length s = length smp0 ->
      (forall j, j <> n -> s !! j = smp !! j) ->
      (forall j, (j < length smp0)%nat -> j = n -> s !! j = Some a) ->
      a = amplitude v ->
      forall j, (j < length smp0)%nat -> s !! j =
        if decide (j < S n)%nat then Some (amplitude (voices st !!! j))
        else smp0 !! j).
    { intros a s Hl Hne Heq -> j Hj. destruct (decide (j = n)) as [->|Hjn].
      - rewrite (Heq n) by done. case_decide; [done|lia].
      - rewrite Hne, Hsmp by done. repeat case_decide; try lia; done. }
    destruct (0 <=? sample v) eqn:Hs; [destruct (negb (pos v =? 0)) eqn:Hp|].
    + eexists _, _. split; [reflexivity|]. split; [|split].
      * intros j. apply Hother. intros x Hx. apply Hv in Hx. subst x.
        unfold played. by rewrite Hs, Hp.
      * by rewrite !length_insert.
      * apply (Hamp (array_get (samples (sounds !!! Z.to_nat (sample v))) (pos v))).
        -- by rewrite !length_insert.
        -- intros j Hj. by rewrite !list_lookup_insert_ne.
        -- intros j Hj ->. rewrite list_lookup_insert_eq; [done|].
           rewrite length_insert. lia.
        -- unfold amplitude. by rewrite Hs.
    + exists vs, (<[n:=array_get (samples (sounds !!! Z.to_nat (sample v))) (pos v)]> (<[n:=0]> smp)).
      split; [done|]. split; [|split].
      * intros j. rewrite <- (list_alter_id id vs n) by done. apply Hother.
        intros x Hx. apply Hv in Hx. subst x. unfold played. by rewrite Hs, Hp.
      * by rewrite !length_insert.
      * apply (Hamp (array_get (samples (sounds !!! Z.to_nat (sample v))) (pos v))).
        -- by rewrite !length_insert.
        -- intros j Hj. by rewrite !list_lookup_insert_ne.
        -- intros j Hj ->. rewrite list_lookup_insert_eq; [done|].
           rewrite length_insert. lia.
        -- unfold amplitude. by rewrite Hs.
    + exists vs, (<[n:=0]> smp). split; [done|]. split; [|split].
      * intros j. rewrite <- (list_alter_id id vs n) by done. apply Hother.
        intros x Hx. apply Hv in Hx. subst x. unfold played. by rewrite Hs.
      * by rewrite !length_insert.
      * apply (Hamp 0).
        -- by rewrite !length_insert.
        -- intros j Hj. by rewrite !list_lookup_insert_ne.
        -- intros j Hj ->. rewrite list_lookup_insert_eq; [done|]. lia.
        -- unfold amplitude. by rewrite Hs.
Qed.

Lemma play_phase_state st :
  fst (play_phase st) = set_voices (voices (fst (play_phase st))) st.
Proof.
  unfold play_phase.
  destruct (play_loop N_VOICES st (replicate N_VOICES 0)) as (vs & smp & -> & _).
  done.
Qed.

Lemma play_phase_lookup st i :
  (i < N_VOICES)%nat ->
  voices (fst (play_phase st)) !! i = played <$> voices st !! i.
Proof.
  intros Hi. unfold play_phase.
  destruct (play_loop N_VOICES st (replicate N_VOICES 0))
    as (vs & smp & -> & Hvs & _).
  cbn [fst voices set_voices]. rewrite Hvs. by rewrite decide_True.
Qed.

Lemma play_phase_amplitude st i :
  (i < N_VOICES)%nat ->
  snd (play_phase st) !! i = Some (amplitude (voices st !!! i)).
Proof.
  intros Hi. unfold play_phase.
  destruct (play_loop N_VOICES st (replicate N_VOICES 0))
    as (vs & smp & -> & _ & _ & Hsmp).
  cbn [snd]. rewrite Hsmp by (by rewrite length_replicate).
  by rewrite decide_True.
Qed.

Lemma frame_voices_lookup st i :
  (i < N_VOICES)%nat ->
  frame_voices st !! i = (fun v => played (after_trigger st i v)) <$> voices st !! i.
Proof.
  intros Hi. unfold frame_voices.
  rewrite play_phase_lookup, trigger_phase_lookup by done.
  by destruct (voices st !! i).
Qed.

Lemma frame_amplitudes_lookup st i v :
  (i < N_VOICES)%nat -> voices st !! i = Some v ->
  frame_amplitudes st !! i = Some (amplitude (after_trigger st i v)).
Proof.
  intros Hi Hv. unfold frame_amplitudes.
  rewrite play_phase_amplitude by done. do 2 f_equal.
  apply list_lookup_total_correct.
  by rewrite trigger_phase_lookup, Hv.
Qed.

(** The mixing loop computes the two sums of the shares, modulo 2^32. *)
Lemma mix_phase_sum st smp :
  mix_phase st smp =
  (wrap32 (mix_sum contrib_left (voices st) smp),
   wrap32 (mix_sum contrib_right (voices st) smp)).
Proof.
  unfold mix_phase, mix_sum. induction N_VOICES as [|n IH]; [done|].
  cbn [for_loop]. rewrite IH. unfold mix_body, contrib_left, contrib_right.
  cbn [fst snd]. by rewrite mix_step_left, mix_step_right.
Qed.

Lemma frame_output_sum st :
  frame_output st =
  (wrap32 (mix_sum contrib_left (frame_voices st) (frame_amplitudes st)),
   wrap32 (mix_sum contrib_right (frame_voices st) (frame_amplitudes st))).
Proof.
  unfold frame_output, frame_voices, frame_amplitudes.
  destruct (play_phase (trigger_phase st)) as [st1 smp].
  apply mix_phase_sum.
Qed.

(** ** [generate_sample] as a whole *)

Lemma advance_transport_set_voices vs st :
  advance_transport (set_voices vs st) = set_voices vs (advance_transport st).
Proof.
  destruct st. unfold advance_transport. cbn.
  repeat case_match; reflexivity.
Qed.

Lemma advance_transport_other st :
  buffer (advance_transport st) = buffer st /\
  buffer_playing (advance_transport st) = buffer_playing st /\
  buffer_to_fill (advance_transport st) = buffer_to_fill st /\
  samplesPerBeat (advance_transport st) = samplesPerBeat st /\
  samplesPerTick (advance_transport st) = samplesPerTick st /\
  voices (advance_transport st) = voices st /\
  index1 (advance_transport st) = index1 st.
Proof.
  destruct st. unfold advance_transport. cbn.
  repeat case_match; repeat split; reflexivity.
Qed.

Lemma generate_sample_eq st :
  generate_sample st =
  (set_index1 (int_add (tone_index st) 1)
     (advance_transport (set_voices (frame_voices st) st)),
   smpl_d1 (tone (tone_index st)) (tone (tone_index st))).
Proof.
  unfold generate_sample, frame_voices.
  pose proof (play_phase_state (trigger_phase st)) as H.
  destruct (play_phase (trigger_phase st)) as [st2 smp]. cbn [fst] in *.
  rewrite trigger_phase_voices in H. cbn [set_voices] in H.
  assert (Hidx : tone_index (advance_transport st2) = tone_index st).
  { unfold tone_index.
    destruct (advance_transport_other st2) as (_ & _ & _ & _ & _ & _ & ->).
    rewrite H. by destruct st. }
  rewrite Hidx. do 3 f_equal. rewrite H. by destruct st.
Qed.

Lemma next_eq st :
  next st = set_index1 (int_add (tone_index st) 1)
              (advance_transport (set_voices (frame_voices st) st)).
Proof. unfold next. by rewrite generate_sample_eq. Qed.

Lemma emitted_eq st :
  emitted st = smpl_d1 (tone (tone_index st)) (tone (tone_index st)).
Proof. unfold emitted. by rewrite generate_sample_eq. Qed.

Lemma next_voices st : voices (next st) = frame_voices st.
Proof.
  rewrite next_eq. cbn [voices set_index1].
  by destruct (advance_transport_other (set_voices (frame_voices st) st))
    as (_ & _ & _ & _ & _ & -> & _).
Qed.

Lemma next_index1 st : index1 (next st) = int_add (tone_index st) 1.
Proof. by rewrite next_eq. Qed.

Lemma next_transport st :
  transport (next st) = transport (advance_transport st) /\
  samplesPerTick (next st) = samplesPerTick st.
Proof.
  rewrite next_eq, advance_transport_set_voices. unfold transport.
  cbn [bar tickOfBar sampleOfTick samplesPerTick set_index1 set_voices].
  split; [done|]. by destruct (advance_transport_other st) as (_ & _ & _ & _ & -> & _).
Qed.

Lemma next_static st :
  buffer (next st) = buffer st /\
  buffer_playing (next st) = buffer_playing st /\
  buffer_to_fill (next st) = buffer_to_fill st /\
  samplesPerBeat (next st) = samplesPerBeat st /\
  samplesPerTick (next st) = samplesPerTick st.
Proof.
  rewrite next_eq, advance_transport_set_voices.
  cbn [buffer buffer_playing buffer_to_fill samplesPerBeat samplesPerTick
       set_index1 set_voices].
  destruct (advance_transport_other st) as (-> & -> & -> & -> & -> & _).
  done.
Qed.

(** ** Transport *)

Lemma advance_transport_cases st :
  in_int (samplesPerTick st) -> transport_inv st ->
  transport (advance_transport st) =
    if sampleOfTick st + 1 <? samplesPerTick st
    then (bar st, tickOfBar st, sampleOfTick st + 1)
    else if tickOfBar st + 1 <? BAR_LEN
    then (bar st, tickOfBar st + 1, 0)
    else if bar st + 1 <? LOOP_BARS
    then (bar st + 1, 0, 0)
    else (0, 0, 0).
Proof.
  destruct st as [? ? ? b t s ? fps ? ?].
  unfold in_int, INT_MIN, INT_MAX, transport_inv, transport, advance_transport.
  cbn. unfold BAR_LEN, LOOP_BARS. intros Hfps (Hs & Ht & Hb).
  rewrite !int_add_small by int_range.
  destruct (Z.ltb_spec (s + 1) fps), (Z.eqb_spec (s + 1) fps); try lia; cbn; [done|].
  destruct (Z.ltb_spec (t + 1) 72), (Z.eqb_spec (t + 1) 72); try lia; cbn; [done|].
  destruct (Z.ltb_spec (b + 1) 10), (Z.eqb_spec (b + 1) 10); try lia; cbn; done.
Qed.

Lemma next_transport_inv st :
  in_int (samplesPerTick st) -> transport_inv st -> transport_inv (next st).
Proof.
  intros Hfps Hinv.
  destruct (next_transport st) as [Ht Hspt].
  rewrite advance_transport_cases in Ht by done.
  unfold transport_inv in *. rewrite Hspt. unfold transport in Ht.
  unfold BAR_LEN, LOOP_BARS in *.
  repeat case_match; simplify_eq; lia.
Qed.

(** A call moves the position one frame along the arrangement. *)
Lemma next_frame_number st :
  in_int (samplesPerTick st) -> transport_inv st ->
  frame_number (next st) = (frame_number st + 1) mod loop_frames st.
Proof.
  intros Hfps Hinv.
  destruct (next_transport st) as [Ht Hspt].
  rewrite advance_transport_cases in Ht by done.
  unfold frame_number, loop_frames. rewrite Hspt.
  unfold transport_inv, transport in *. unfold BAR_LEN, LOOP_BARS in *.
  destruct Hinv as (Hs & Hti & Hb).
  repeat case_match; simplify_eq;
    repeat match goal with
           | H : (_ <? _) = true |- _ => apply Z.ltb_lt in H
           | H : (_ <? _) = false |- _ => apply Z.ltb_ge in H
           end.
  - rewrite Z.mod_small; nia.
  - rewrite Z.mod_small; nia.
  - rewrite Z.mod_small; nia.
  - assert (sampleOfTick st = samplesPerTick st - 1) as -> by lia.
    assert (tickOfBar st = 71) as -> by lia.
    assert (bar st = 9) as -> by lia.
    replace ((9 * 72 + 71) * samplesPerTick st + (samplesPerTick st - 1) + 1)
      with (10 * 72 * samplesPerTick st) by lia.
    rewrite Z.mod_same by lia. lia.
Qed.

Lemma run_S n st : run (S n) st = next (run n st).
Proof. reflexivity. Qed.

Lemma run_add n m st : run (n + m) st = run n (run m st).
Proof. unfold run. apply Nat.iter_add. Qed.

Lemma run_samplesPerTick n st : samplesPerTick (run n st) = samplesPerTick st.
Proof.
  induction n as [|n IH]; [done|]. rewrite run_S.
  destruct (next_static (run n st)) as (_ & _ & _ & _ & ->). done.
Qed.

Lemma run_transport_inv n st :
  in_int (samplesPerTick st) -> transport_inv st -> transport_inv (run n st).
Proof.
  intros Hfps Hinv. induction n as [|n IH]; [done|]. rewrite run_S.
  apply next_transport_inv; [by rewrite run_samplesPerTick | done].
Qed.

Lemma run_frame_number n st :
  in_int (samplesPerTick st) -> transport_inv st ->
  frame_number (run n st) = (frame_number st + Z.of_nat n) mod loop_frames st.
Proof.
  intros Hfps Hinv.
  assert (Hpos : 0 < loop_frames st).
  { unfold loop_frames, transport_inv, LOOP_BARS, BAR_LEN in *. lia. }
  induction n as [|n IH].
  - cbn [run Nat.iter]. rewrite Z.add_0_r, Z.mod_small; [done|].
    unfold frame_number, loop_frames, transport_inv, LOOP_BARS, BAR_LEN in *. nia.
  - rewrite run_S, next_frame_number.
    + rewrite IH. unfold loop_frames at 2. rewrite run_samplesPerTick.
      fold (loop_frames st). rewrite Zplus_mod_idemp_l. f_equal. lia.
    + by rewrite run_samplesPerTick.
    + by apply run_transport_inv.
Qed.

(** The position is determined by the frame number. *)
Lemma transport_of_frame_number st b t s :
  transport_inv st ->
  0 <= s < samplesPerTick st -> 0 <= t < BAR_LEN ->
  frame_number st = (b * BAR_LEN + t) * samplesPerTick st + s ->
  transport st = (b, t, s).
Proof.
  unfold transport_inv, frame_number, transport, BAR_LEN.
  intros (Hs & Ht & Hb) Hs' Ht' Heq.
  assert (bar st * 72 + tickOfBar st = b * 72 + t) as Hq by nia.
  assert (sampleOfTick st = s) as -> by nia.
  assert (bar st = b) as -> by lia.
  assert (tickOfBar st = t) as -> by lia.
  done.
Qed.

(** The program is inside the bounds from the moment [main] has set the
    timing. *)
Lemma program_transport_inv n :
  transport_inv (run n (main_timing program_start)).
Proof.
  apply run_transport_inv.
  - assert (samplesPerTick (main_timing program_start) = 949) as ->
      by (vm_compute; reflexivity).
    int_range.
  - unfold transport_inv.
    assert (samplesPerTick (main_timing program_start) = 949) as ->
      by (vm_compute; reflexivity).
    cbn. unfold BAR_LEN, LOOP_BARS. lia.
Qed.

(** ** The counter [index1] *)

Lemma tone_index_mod st : index1_inv st -> tone_index st = index1 st mod 400.
Proof.
  unfold index1_inv, tone_index. intros H.
  destruct (Z.leb_spec 400 (index1 st)).
  - replace (index1 st) with 400 by lia. done.
  - by rewrite Z.mod_small by lia.
Qed.

Lemma next_index1_mod st :
  index1_inv st -> index1 (next st) = index1 st mod 400 + 1.
Proof.
  intros H. rewrite next_index1, tone_index_mod by done.
  pose proof (Z.mod_pos_bound (index1 st) 400).
  apply int_add_small. int_range.
Qed.

Lemma next_index1_inv st : index1_inv st -> index1_inv (next st).
Proof.
  intros H. unfold index1_inv. rewrite next_index1_mod by done.
  pose proof (Z.mod_pos_bound (index1 st) 400). lia.
Qed.

Lemma run_index1_inv n st : index1_inv st -> index1_inv (run n st).
Proof.
  intros H. induction n as [|n IH]; [done|].
  rewrite run_S. by apply next_index1_inv.
Qed.

(** The index of the tone table that the call after [n] calls uses. *)
Lemma run_tone_index n st :
  index1_inv st -> tone_index (run n st) = (index1 st + Z.of_nat n) mod 400.
Proof.
  intros H. induction n as [|n IH].
  - cbn [run Nat.iter]. rewrite Z.add_0_r. by apply tone_index_mod.
  - rewrite tone_index_mod by (by apply run_index1_inv).
    rewrite run_S, next_index1_mod by (by apply run_index1_inv).
    rewrite <- tone_index_mod by (by apply run_index1_inv).
    rewrite IH, Zplus_mod_idemp_l. f_equal. lia.
Qed.

Lemma run_S_index1 n st :
  index1_inv st ->
  index1 (run (S n) st) = (index1 st + Z.of_nat n) mod 400 + 1.
Proof.
  intros H. rewrite run_S, next_index1_mod by (by apply run_index1_inv).
  rewrite <- tone_index_mod by (by apply run_index1_inv).
  by rewrite run_tone_index.
Qed.

(** ** Sums over the voices *)

Lemma mix_sum_ext f vs vs' smp smp' :
  (forall j, (j < N_VOICES)%nat ->
     f (vs !!! j) (default 0 (smp !! j)) = f (vs' !!! j) (default 0 (smp' !! j))) ->
  mix_sum f vs smp = mix_sum f vs' smp'.
Proof.
  unfold mix_sum. induction N_VOICES as [|n IH]; intros H; [done|].
  cbn [for_loop]. rewrite IH, H by (intros; try apply H; lia). done.
Qed.

(** The share of voice [i] can be taken out of the sum. *)
Lemma mix_sum_split f vs smp i :
  (forall v, f v 0 = 0) -> (i < N_VOICES)%nat ->
  mix_sum f vs smp =
  mix_sum f vs (<[i := 0]> smp) + f (vs !!! i) (default 0 (smp !! i)).
Proof.
  intros Hf. unfold mix_sum.
  assert (forall n,
    for_loop n (fun j acc => acc + f (vs !!! j) (default 0 (smp !! j))) 0 =
    for_loop n (fun j acc => acc + f (vs !!! j) (default 0 (<[i:=0]> smp !! j))) 0
    + if decide (i < n)%nat then f (vs !!! i) (default 0 (smp !! i)) else 0) as Hn.
  { induction n as [|n IH]; [done|]. cbn [for_loop]. rewrite IH.
    destruct (decide (n = i)) as [->|Hne].
    - rewrite decide_False, decide_True by lia.
      assert (default 0 (<[i:=0]> smp !! i) = 0) as ->.
      { destruct (decide (i < length smp)%nat).
        - by rewrite list_lookup_insert_eq.
        - rewrite list_insert_ge by lia. by rewrite lookup_ge_None_2 by lia. }
      rewrite Hf. lia.
    - rewrite list_lookup_insert_ne by done.
      repeat case_decide; try lia. }
  intros Hi. rewrite Hn. by rewrite decide_True.
Qed.

Lemma mix_sum_silent f vs smp :
  (forall v, f v 0 = 0) ->
  (forall j, (j < N_VOICES)%nat -> default 0 (smp !! j) = 0) ->
  mix_sum f vs smp = 0.
Proof.
  intros Hf. unfold mix_sum. induction N_VOICES as [|n IH]; intros H; [done|].
  cbn [for_loop]. rewrite IH, H, Hf by (intros; try apply H; lia). done.
Qed.

Lemma contrib_left_0 v : contrib_left v 0 = 0.
Proof. unfold contrib_left. lia. Qed.

Lemma contrib_right_0 v : contrib_right v 0 = 0.
Proof. unfold contrib_right. lia. Qed.

(** With one sounding voice the sum is the share of that voice. *)
Lemma mix_sum_single f vs smp i v a :
  (forall v, f v 0 = 0) -> (i < N_VOICES)%nat ->
  vs !! i = Some v -> smp !! i = Some a ->
  (forall j, j <> i -> default 0 (smp !! j) = 0) ->
  mix_sum f vs smp = f v a.
Proof.
  intros Hf Hi Hv Ha Hz. rewrite (mix_sum_split f vs smp i) by done.
  rewrite mix_sum_silent, Ha; [|done|].
  - cbn [default]. by rewrite (list_lookup_total_correct _ _ _ Hv).
  - intros j _. destruct (decide (j = i)) as [->|Hne].
    + rewrite list_lookup_insert_eq; [done|]. by eapply lookup_lt_Some.
    + rewrite list_lookup_insert_ne by done. by apply Hz.
Qed.

(** ** Triggers *)

Lemma not_triggered st i v : triggered st i = false -> after_trigger st i v = v.
Proof.
  unfold triggered, after_trigger. intros H.
  apply bool_decide_eq_false in H.
  destruct (trigger_char st i); [|done]. by destruct H.
Qed.

Lemma trigger_char_first_frame st i c :
  sampleOfTick st = 0 -> cell (bar st) i (tickOfBar st) = Some c ->
  trigger_char st i = if Ascii.eqb c " " then None else Some c.
Proof.
  intros Hs Hc. unfold trigger_char. rewrite Hs, Hc. cbn.
  by destruct (Ascii.eqb c " ").
Qed.

Lemma trigger_char_later st i : sampleOfTick st <> 0 -> trigger_char st i = None.
Proof.
  intros Hs. unfold trigger_char. by destruct (Z.eqb_spec (sampleOfTick st) 0).
Qed.

(** Every pattern has [N_VOICES] rows. *)
Lemma cell_voice b i t c : cell b i t = Some c -> (i < N_VOICES)%nat.
Proof.
  unfold cell, cell_in. destruct ((b <? 0) || (t <? 0)); [done|].
  destruct (bars !! Z.to_nat b) as [k|]; [|done]. cbn.
  destruct (k <? 0); [done|].
  destruct (mjoin (patterns !! Z.to_nat k)) as [p|] eqn:Hp; [|done]. cbn.
  destruct (pattern p !! i) as [row|] eqn:Hrow; [|done]. intros _.
  apply lookup_lt_Some in Hrow.
  assert (length (pattern p) = N_VOICES) as <-; [|done].
  clear Hrow. unfold patterns in Hp.
  generalize dependent (Z.to_nat k). intros n Hp.
  do 10 (destruct n as [|n]; [by simplify_eq/= |]). done.
Qed.

Lemma trigger_pos c v : pos (trigger c v) = 1.
Proof. reflexivity. Qed.

Lemma char_code_range c : 0 <= char_code c < 256.
Proof.
  unfold char_code. pose proof (nat_ascii_bounded c). lia.
Qed.

Lemma trigger_emph c v :
  emph (trigger c v) = (char_code c - char_code "1") * 12.
Proof.
  unfold trigger, set_emph, set_pos; cbn [emph].
  pose proof (char_code_range c). change (char_code "1") with 49.
  unfold int_mul, int_sub.
  rewrite wrap32_mul_l.
  apply wrap32_id. int_range.
Qed.

(** ** The cursor of a voice *)

Lemma played_idle v : pos v = 0 -> played v = v.
Proof.
  intros H. unfold played. rewrite H. by destruct (0 <=? sample v).
Qed.

Lemma played_advance v snd :
  0 <= sample v -> sounds !! Z.to_nat (sample v) = Some snd ->
  0 < pos v < INT_MAX ->
  played v = set_pos (if pos v + 1 <? len snd then pos v + 1 else 0) v.
Proof.
  intros Hs Hsnd Hp. unfold played.
  rewrite (list_lookup_total_correct _ _ _ Hsnd).
  destruct (Z.leb_spec 0 (sample v)); [|lia].
  destruct (Z.eqb_spec (pos v) 0); [lia|]. cbn [negb].
  unfold INT_MAX in Hp.
  rewrite int_add_small by int_range.
  unfold to_size_t. rewrite Z.mod_small by lia.
  by destruct (Z.leb_spec (len snd) (pos v + 1)), (Z.ltb_spec (pos v + 1) (len snd));
    try lia.
Qed.

Lemma trigger_5 v : trigger "5" v = set_emph (4 * 12) (set_pos 1 v).
Proof. reflexivity. Qed.

(** ** The claims *)

(** C3.  In a state whose position is inside the configured bounds, a call
    of [generate_sample] advances the position by exactly one frame:
    [sampleOfTick] wraps at [samplesPerTick] and increments [tickOfBar],
    which wraps at [BAR_LEN] and increments [bar], which wraps at
    [LOOP_BARS] to 0.  The bounds hold again after any number of calls,
    and from the top of bar [b], [samplesPerTick * BAR_LEN] calls lead to
    the top of bar [b + 1] modulo [LOOP_BARS]. *)
Theorem C3_transport_advances_one_frame st :
  in_int (samplesPerTick st) ->
  transport_inv st ->
  transport (next st) =
    (if sampleOfTick st + 1 <? samplesPerTick st
     then (bar st, tickOfBar st, sampleOfTick st + 1)
     else if tickOfBar st + 1 <? BAR_LEN
     then (bar st, tickOfBar st + 1, 0)
     else if bar st + 1 <? LOOP_BARS
     then (bar st + 1, 0, 0)
     else (0, 0, 0)) /\
  (forall n, transport_inv (run n st)) /\
  (tickOfBar st = 0 -> sampleOfTick st = 0 ->
   transport (run (Z.to_nat (samplesPerTick st * BAR_LEN)) st) =
     ((bar st + 1) mod LOOP_BARS, 0, 0)).
Proof.
  intros Hfps Hinv. split; [|split].
  - destruct (next_transport st) as [-> _]. by apply advance_transport_cases.
  - intros n. by apply run_transport_inv.
  - intros Ht Hs.
    set (n := Z.to_nat (samplesPerTick st * BAR_LEN)).
    pose proof (run_transport_inv n st Hfps Hinv) as Hinv'.
    pose proof (run_frame_number n st Hfps Hinv) as Hfn.
    pose proof (run_samplesPerTick n st) as Hspt.
    destruct Hinv as (Hs0 & Ht0 & Hb0).
    assert (Hb1 : 0 <= (bar st + 1) mod LOOP_BARS < LOOP_BARS)
      by (apply Z.mod_pos_bound; unfold LOOP_BARS; lia).
    apply transport_of_frame_number; [done| rewrite Hspt; lia
                                     | unfold BAR_LEN; lia |].
    rewrite Hfn, Hspt. unfold frame_number, loop_frames, n.
    rewrite Ht, Hs, Z2Nat.id by (unfold BAR_LEN; lia).
    unfold BAR_LEN, LOOP_BARS in *.
    replace ((bar st * 72 + 0) * samplesPerTick st + 0 + samplesPerTick st * 72)
      with ((bar st + 1) * (72 * samplesPerTick st)) by lia.
    replace (10 * 72 * samplesPerTick st) with (10 * (72 * samplesPerTick st)) by lia.
    rewrite Z.mul_mod_distr_r by lia. lia.
Qed.

(** C5 (what the code does).  One arrangement after the timing set-up,
    i.e. after [LOOP_BARS * BAR_LEN * samplesPerTick] = 683280 calls of
    [generate_sample], the position is again the one of time zero, but
    [index1] is 80 where it was 0: the word emitted [k] frames into the
    first pass is built from entry [k mod 400] of the tone table, the word
    emitted [k] frames into the second pass from entry
    [(k + 80) mod 400]. *)
Theorem C5_loop_restores_transport_not_index1 :
  let st0 := main_timing program_start in
  let L := Z.to_nat (loop_frames st0) in
  loop_frames st0 = 683280 /\
  transport (run L st0) = transport st0 /\
  index1 st0 = 0 /\
  index1 (run L st0) = 80 /\
  forall k : nat,
    emitted (run k st0) =
      smpl_d1 (tone (Z.of_nat k mod 400)) (tone (Z.of_nat k mod 400)) /\
    emitted (run (L + k) st0) =
      smpl_d1 (tone ((Z.of_nat k + 80) mod 400))
              (tone ((Z.of_nat k + 80) mod 400)).
Proof.
  intros st0 L.
  assert (Hspt : samplesPerTick st0 = 949) by (vm_compute; reflexivity).
  assert (Hloop : loop_frames st0 = 683280)
    by (unfold loop_frames; rewrite Hspt; reflexivity).
  assert (Hfps : in_int (samplesPerTick st0))
    by (rewrite Hspt; unfold in_int, INT_MIN, INT_MAX; lia).
  assert (Hinv : transport_inv st0)
    by (unfold transport_inv; rewrite Hspt; cbn; unfold BAR_LEN, LOOP_BARS; lia).
  assert (Hidx : index1_inv st0) by (unfold index1_inv; cbn; lia).
  assert (HL : Z.of_nat L = 683280) by (unfold L; rewrite Hloop; lia).
  split; [exact Hloop|]. split; [|split; [reflexivity|split]].
  - apply transport_of_frame_number.
    + by apply run_transport_inv.
    + rewrite run_samplesPerTick, Hspt. cbn. lia.
    + cbn. unfold BAR_LEN. lia.
    + rewrite run_frame_number, run_samplesPerTick, HL, Hloop by done.
      rewrite Hspt. reflexivity.
  - assert (HLS : L = S (Z.to_nat 683279)) by lia.
    rewrite HLS, run_S_index1 by done.
    replace (index1 st0) with 0 by done.
    rewrite Z2Nat.id by lia. reflexivity.
  - intros k. rewrite !emitted_eq, !run_tone_index by done.
    replace (index1 st0) with 0 by done. split.
    + by rewrite Z.add_0_l.
    + rewrite Nat2Z.inj_add, HL, Z.add_0_l.
      replace (683280 + Z.of_nat k) with (Z.of_nat k + 80 + 1708 * 400) by lia.
      by rewrite Z_mod_plus_full.
Qed.

(** C6.  When voice [i] is the only one with a non-zero amplitude [A] in
    the mixing loop and its pan is between 0 and 32, the two accumulators
    add up, in the 32-bit arithmetic of the program, to
    [A * (emph + volume) * 32], whatever the pan; and while the volume
    stays below 2048 in absolute value (the volumes and trigger digits of
    this program give at most 192 + 96) no product leaves the 32-bit
    range and the equation holds in the integers. *)
Theorem C6_pan_invariance st smp i v A :
  (i < N_VOICES)%nat ->
  voices st !! i = Some v ->
  smp !! i = Some A ->
  (forall j, j <> i -> default 0 (smp !! j) = 0) ->
  in_int16 A ->
  0 <= pan v <= 32 ->
  int_add (fst (mix_phase st smp)) (snd (mix_phase st smp)) =
    int_mul (int_mul A (int_add (emph v) (volume v))) 32 /\
  (Z.abs (emph v + volume v) < 2048 ->
   fst (mix_phase st smp) + snd (mix_phase st smp) =
     A * (emph v + volume v) * 32).
Proof.
  intros Hi Hv Ha Hz HA Hpan. rewrite mix_phase_sum. cbn [fst snd].
  rewrite (mix_sum_single contrib_left _ _ i v A)
    by auto using contrib_left_0.
  rewrite (mix_sum_single contrib_right _ _ i v A)
    by auto using contrib_right_0.
  unfold contrib_left, contrib_right. split.
  - unfold int_add, int_mul.
    rewrite wrap32_add_l, wrap32_add_r, wrap32_mul_l.
    destruct (wrap32_decompose (emph v + volume v)) as [k ->].
    symmetry. apply (wrap32_congr _ _ (A * k * 32)). ring.
  - intros Hvol. unfold in_int16 in HA.
    set (x := (emph v + volume v) * A).
    assert (Hx : - (2047 * 32768) <= x <= 2047 * 32768) by (unfold x; nia).
    rewrite !wrap32_id by (unfold in_int, INT_MIN, INT_MAX; nia).
    lia.
Qed.

(** C10.  On the first frame of a step the trigger loop, whatever the
    tables it reads, leaves voice [i] as it was when its cell holds a
    space, and for every other character [c] of the cell, a digit or not,
    sets its cursor to 1 and its emphasis to [(c - '1') * 12] and nothing
    else; the emphasis is negative when [c] is below ['1'].  On the tables
    of the program the voices triggered by a call are those whose cell is
    not a space. *)
Theorem C10_non_space_cell_triggers pats brs st i v c :
  sampleOfTick st = 0 ->
  (i < N_VOICES)%nat ->
  cell_in pats brs (bar st) i (tickOfBar st) = Some c ->
  voices st !! i = Some v ->
  voices (trigger_phase_in pats brs st) !! i =
    Some (if Ascii.eqb c " " then v
          else mkVoice (pan v) (volume v) (sample v) 1
                 ((char_code c - char_code "1") * 12)) /\
  (c <> " "%char -> char_code c < char_code "1" ->
   exists v', voices (trigger_phase_in pats brs st) !! i = Some v' /\
              pos v' = 1 /\ emph v' < 0) /\
  (forall c', cell (bar st) i (tickOfBar st) = Some c' ->
     triggered st i = negb (Ascii.eqb c' " ") /\
     voices (trigger_phase st) !! i =
       Some (if Ascii.eqb c' " " then v else trigger c' v)).
Proof.
  intros Hs Hi Hc Hv.
  assert (Hloop : voices (trigger_phase_in pats brs st) !! i =
                  Some (if Ascii.eqb c " " then v else trigger c v)).
  { rewrite trigger_phase_in_lookup, Hv, Hs, Hc by done. cbn.
    by destruct (Ascii.eqb c " "). }
  assert (Htrig : trigger c v =
                  mkVoice (pan v) (volume v) (sample v) 1
                    ((char_code c - char_code "1") * 12)).
  { rewrite <- (trigger_emph c v). by destruct v. }
  split; [by rewrite Hloop, Htrig|]. split.
  - intros Hsp Hlow. exists (trigger c v). split.
    + rewrite Hloop. by rewrite (proj2 (Ascii.eqb_neq c " ") Hsp).
    + split; [done|]. rewrite trigger_emph. lia.
  - intros c' Hc'.
    pose proof (trigger_char_first_frame st i c' Hs Hc') as Hch. split.
    + unfold triggered. rewrite Hch.
      destruct (Ascii.eqb c' " "); cbn [negb].
      * apply bool_decide_eq_false. by intros [? ?].
      * apply bool_decide_eq_true. by eexists.
    + rewrite trigger_phase_lookup, Hv by done. cbn. f_equal.
      unfold after_trigger. rewrite Hch. by destruct (Ascii.eqb c' " ").
Qed.

(** C9.  A voice that has a sample ([sample >= 0]), whose cursor is 0 and
    which the call does not trigger, is read at index 0 of its waveform:
    that first amplitude is what the call puts in [samples[i]], its share
    [(emph + volume) * amplitude * pan] (and [32 - pan]) is part of both
    accumulators, and the cursor is still 0 after the call.  The bank
    holds the five drum waveforms and nothing else, so this amplitude is
    the first sample of a drum. *)
Theorem C9_idle_voice_reads_first_amplitude st i v :
  (i < N_VOICES)%nat ->
  voices st !! i = Some v ->
  pos v = 0 ->
  0 <= sample v ->
  triggered st i = false ->
  let a0 := array_get (samples (sounds !!! Z.to_nat (sample v))) 0 in
  frame_amplitudes st !! i = Some a0 /\
  frame_output st =
    (wrap32 (mix_sum contrib_left (frame_voices st)
               (<[i := 0]> (frame_amplitudes st)) + contrib_left v a0),
     wrap32 (mix_sum contrib_right (frame_voices st)
               (<[i := 0]> (frame_amplitudes st)) + contrib_right v a0)) /\
  voices (next st) !! i = Some v /\
  map samples sounds =
    [drum_kick; drum_clap; drum_snare; drum_hihat; drum_perc].
Proof.
  intros Hi Hv Hpos Hsample Hidle a0.
  assert (Hamp : frame_amplitudes st !! i = Some a0).
  { rewrite (frame_amplitudes_lookup st i v) by done.
    rewrite not_triggered by done. unfold amplitude, a0.
    destruct (Z.leb_spec 0 (sample v)); [|lia]. by rewrite Hpos. }
  assert (Hvoice : frame_voices st !! i = Some v).
  { rewrite frame_voices_lookup, Hv by done. cbn.
    rewrite not_triggered by done. unfold played.
    destruct (Z.leb_spec 0 (sample v)); [|lia]. by rewrite Hpos. }
  split; [done|]. split; [|split; [|done]].
  - rewrite frame_output_sum.
    rewrite (mix_sum_split contrib_left _ _ i) by auto using contrib_left_0.
    rewrite (mix_sum_split contrib_right _ _ i) by auto using contrib_right_0.
    rewrite Hamp, (list_lookup_total_correct _ _ _ Hvoice). done.
  - by rewrite next_voices.
Qed.

(** C4.  Let the cell of voice [i] hold ['5'] on the first frame of a
    step, the voice have a waveform of [len] samples.  The call sets the
    cursor to 1 and the emphasis to [4 * 12] before it reads the voice.
    As long as no later call triggers the voice again, the cursor that
    the [k]-th later call finds ([k >= 1]) is [k + 1] while that is below
    [len], and 0 from then on; the emphasis stays [4 * 12]. *)
Theorem C4_trigger_5_cursor st i v snd :
  sampleOfTick st = 0 ->
  cell (bar st) i (tickOfBar st) = Some "5"%char ->
  voices st !! i = Some v ->
  0 <= sample v ->
  sounds !! Z.to_nat (sample v) = Some snd ->
  len snd <= INT_MAX ->
  voices (trigger_phase st) !! i = Some (set_emph (4 * 12) (set_pos 1 v)) /\
  forall k : nat,
    (1 <= k)%nat ->
    (forall j, (1 <= j < k)%nat -> triggered (run j st) i = false) ->
    voices (run k st) !! i =
      Some (set_emph (4 * 12)
              (set_pos (if Z.of_nat k + 1 <? len snd
                        then Z.of_nat k + 1 else 0) v)).
Proof.
  intros Hs Hc Hv Hsample Hsnd Hlen.
  pose proof (cell_voice _ _ _ _ Hc) as Hi.
  assert (Htrig : after_trigger st i v = set_emph (4 * 12) (set_pos 1 v)).
  { unfold after_trigger.
    by rewrite (trigger_char_first_frame st i "5"). }
  split.
  { by rewrite trigger_phase_lookup, Hv, <- Htrig. }
  intros k Hk. induction k as [|k IH]; [lia|]. intros Hquiet.
  rewrite run_S, next_voices, frame_voices_lookup by done.
  destruct (decide (k = 0)%nat) as [->|Hk0].
  - change (run 0 st) with st. rewrite Hv. cbn [fmap option_fmap option_map].
    rewrite Htrig.
    rewrite (played_advance _ snd) by (done || (cbn; unfold INT_MAX; lia)).
    done.
  - rewrite IH by (lia || (intros; apply Hquiet; lia)).
    cbn [fmap option_fmap option_map].
    rewrite not_triggered by (apply Hquiet; lia).
    unfold INT_MAX in Hlen.
    destruct (Z.ltb_spec (Z.of_nat k + 1) (len snd)).
    + rewrite (played_advance _ snd) by (done || (cbn; unfold INT_MAX; lia)).
      cbn [pos set_pos set_emph].
      replace (Z.of_nat (S k) + 1) with (Z.of_nat k + 1 + 1) by lia.
      done.
    + rewrite played_idle by done.
      destruct (Z.ltb_spec (Z.of_nat (S k) + 1) (len snd)); [lia|done].
Qed.

(** ** The sequencer does not look at the ring *)

Lemma for_loop_commute {S : Type} (f : S -> S) (body : nat -> S -> S) n s :
  (forall i x, body i (f x) = f (body i x)) ->
  for_loop n body (f s) = f (for_loop n body s).
Proof.
  intros H. induction n as [|n IH]; [done|].
  cbn [for_loop]. by rewrite IH, H.
Qed.

Lemma advance_transport_set_ring b p f st :
  advance_transport (set_ring b p f st) = set_ring b p f (advance_transport st).
Proof.
  destruct st. unfold advance_transport. cbn.
  repeat case_match; reflexivity.
Qed.

Lemma generate_sample_set_ring b p f st :
  generate_sample (set_ring b p f st) =
  (set_ring b p f (next st), emitted st).
Proof.
  assert (Htrig : trigger_phase (set_ring b p f st) =
                  set_ring b p f (trigger_phase st)).
  { unfold trigger_phase, trigger_phase_in. cbn [sampleOfTick set_ring].
    destruct (sampleOfTick st =? 0); [|done].
    apply for_loop_commute. intros i x. unfold trigger_body_in.
    cbn [bar tickOfBar voices set_ring].
    destruct (cell_in _ _ _ _ _) as [c|]; [|done]. by destruct (negb _). }
  assert (Hplay : forall s, play_phase (set_ring b p f s) =
                  (set_ring b p f (fst (play_phase s)), snd (play_phase s))).
  { intros s. unfold play_phase.
    change (set_ring b p f s, replicate N_VOICES 0)
      with ((fun x : state * list Z => (set_ring b p f (fst x), snd x))
              (s, replicate N_VOICES 0)).
    rewrite for_loop_commute; [reflexivity|].
    intros i [x smp]. unfold play_body. cbn [fst snd voices set_ring].
    repeat case_match; reflexivity. }
  unfold next, emitted, generate_sample.
  rewrite Htrig, Hplay.
  destruct (play_phase (trigger_phase st)) as [st2 smp]. cbn [fst snd].
  rewrite advance_transport_set_ring. unfold tone_index.
  cbn [index1 set_ring]. reflexivity.
Qed.

Lemma set_ring_id st :
  set_ring (buffer st) (buffer_playing st) (buffer_to_fill st) st = st.
Proof. by destruct st. Qed.

Lemma next_ring st :
  next st = set_ring (buffer st) (buffer_playing st) (buffer_to_fill st)
              (next (sequencer st)).
Proof.
  rewrite <- (set_ring_id st) at 1. unfold sequencer.
  pose proof (generate_sample_set_ring (buffer st) (buffer_playing st)
                (buffer_to_fill st) st) as H1.
  pose proof (generate_sample_set_ring [] 0 0 st) as H2.
  unfold next at 1 2. rewrite H1, H2. done.
Qed.

Lemma sequencer_next st : sequencer (next st) = next (sequencer st).
Proof.
  unfold sequencer at 2. unfold next at 2.
  by rewrite generate_sample_set_ring.
Qed.

Lemma sequencer_run n st : sequencer (run n st) = run n (sequencer st).
Proof.
  induction n as [|n IH]; [done|].
  by rewrite !run_S, sequencer_next, IH.
Qed.

Lemma sequencer_emitted st : emitted (sequencer st) = emitted st.
Proof.
  unfold sequencer. unfold emitted at 1.
  by rewrite generate_sample_set_ring.
Qed.

(** States with the same sequencer emit the same words. *)
Lemma emitted_run_sequencer n st st' :
  sequencer st = sequencer st' -> emitted (run n st) = emitted (run n st').
Proof.
  intros H. rewrite <- (sequencer_emitted (run n st)),
    <- (sequencer_emitted (run n st')).
  by rewrite !sequencer_run, H.
Qed.

Lemma frames_sequencer n st st' :
  sequencer st = sequencer st' -> frames n st = frames n st'.
Proof.
  intros H. unfold frames. apply map_ext. intros k.
  by apply emitted_run_sequencer.
Qed.

Lemma run_ring n st :
  buffer (run n st) = buffer st /\
  buffer_playing (run n st) = buffer_playing st /\
  buffer_to_fill (run n st) = buffer_to_fill st.
Proof.
  induction n as [|n (IH1 & IH2 & IH3)]; [done|]. rewrite run_S.
  destruct (next_static (run n st)) as (-> & -> & -> & _). done.
Qed.

(** ** The loop of [drum_fill_buffer] *)

Lemma buffer_to_fill_set_buffer b st :
  buffer_to_fill (set_buffer b st) = buffer_to_fill st.
Proof. reflexivity. Qed.

Lemma buffer_set_buffer_to_fill x b st :
  buffer (set_buffer_to_fill x (set_buffer b st)) = b.
Proof. reflexivity. Qed.

Lemma buffer_playing_set_ring_fields x b st :
  buffer_playing (set_buffer_to_fill x (set_buffer b st)) = buffer_playing st.
Proof. reflexivity. Qed.

Lemma buffer_to_fill_set_buffer_to_fill x st :
  buffer_to_fill (set_buffer_to_fill x st) = x.
Proof. reflexivity. Qed.

Lemma timing_set_ring_fields x b st :
  samplesPerBeat (set_buffer_to_fill x (set_buffer b st)) = samplesPerBeat st /\
  samplesPerTick (set_buffer_to_fill x (set_buffer b st)) = samplesPerTick st.
Proof. split; reflexivity. Qed.

Lemma fill_loop n st :
  for_loop n fill_body st =
  set_buffer (write_buffer n st (buffer st)) (run n st).
Proof.
  induction n as [|n IH]; [by destruct st|].
  cbn [for_loop]. rewrite IH. unfold write_buffer at 2. cbn [for_loop].
  fold (write_buffer n st (buffer st)).
  destruct (run_ring n st) as (_ & _ & Hf). rewrite run_S.
  generalize dependent (run n st). intros r _ Hf.
  generalize (write_buffer n st (buffer st)). intros B.
  unfold fill_body.
  replace (set_buffer B r)
    with (set_ring B (buffer_playing r) (buffer_to_fill r) r) by (by destruct r).
  rewrite generate_sample_set_ring.
  cbn [buffer buffer_to_fill set_ring]. rewrite Hf.
  destruct (next_static r) as (_ & Hp' & Hf' & _).
  assert (E : buffer_to_fill st = buffer_to_fill (next r)) by congruence.
  rewrite <- Hp', E. by destruct (next r).
Qed.

Lemma drum_fill_buffer_fills st :
  buffer_playing st <> buffer_to_fill st ->
  drum_fill_buffer st =
  set_buffer_to_fill (Z.rem (int_add (buffer_to_fill st) 1) N_BUFFERS)
    (set_buffer (write_buffer (Z.to_nat BUFFER_SIZE) st (buffer st))
       (run (Z.to_nat BUFFER_SIZE) st)).
Proof.
  intros Hne. unfold drum_fill_buffer.
  destruct (Z.eqb_spec (buffer_playing st) (buffer_to_fill st)); [done|].
  rewrite fill_loop, buffer_to_fill_set_buffer.
  by destruct (run_ring (Z.to_nat BUFFER_SIZE) st) as (_ & _ & ->).
Qed.

(** Only block [buffer_to_fill] is written. *)
Lemma write_buffer_other n st b k :
  buffer_to_fill st < 0 \/ k <> Z.to_nat (buffer_to_fill st) ->
  write_buffer n st b !! k = b !! k.
Proof.
  intros H. unfold write_buffer. induction n as [|n IH]; [done|].
  cbn [for_loop]. unfold buffer_store at 1.
  destruct (Z.ltb_spec (buffer_to_fill st) 0); [done|].
  rewrite list_lookup_alter_ne by (destruct H; [lia|done]). done.
Qed.

Lemma alter_twice {A : Type} (f g : A -> A) (i : nat) (l : list A) :
  alter f i (alter g i l) = alter (fun x => f (g x)) i l.
Proof.
  apply list_eq. intros j. destruct (decide (i = j)) as [->|Hne].
  - rewrite !list_lookup_alter_eq. by destruct (l !! j).
  - by rewrite !list_lookup_alter_ne.
Qed.

Lemma write_buffer_block n st b :
  0 <= buffer_to_fill st ->
  write_buffer n st b =
  alter (write_block n st) (Z.to_nat (buffer_to_fill st)) b.
Proof.
  intros H. unfold write_buffer, write_block.
  induction n as [|n IH]; cbn [for_loop].
  - by rewrite list_alter_id.
  - rewrite IH. unfold buffer_store.
    destruct (Z.ltb_spec (buffer_to_fill st) 0); [lia|].
    by rewrite alter_twice.
Qed.

Lemma write_block_length n st blk :
  length (write_block n st blk) = length blk.
Proof.
  unfold write_block. induction n as [|n IH]; [done|].
  cbn [for_loop]. by rewrite length_insert.
Qed.

Lemma write_block_lookup n st blk j :
  write_block n st blk !! j =
  if decide (j < n /\ j < length blk)%nat
  then Some (emitted (run j st)) else blk !! j.
Proof.
  induction n as [|n IH].
  - cbn. case_decide; [lia|done].
  - pose proof (write_block_length n st blk) as Hlen.
    unfold write_block in *. cbn [for_loop].
    rewrite list_lookup_insert, IH, Hlen.
    destruct (decide (n = j)) as [->|Hne];
      repeat case_decide; try lia; done.
Qed.

Lemma write_block_full n st blk :
  length blk = n -> write_block n st blk = frames n st.
Proof.
  intros Hlen. apply list_eq. intros j.
  rewrite write_block_lookup. unfold frames.
  rewrite list_lookup_fmap. destruct (decide (j < n)%nat).
  - rewrite decide_True by lia. by rewrite lookup_seq_lt.
  - rewrite decide_False by lia.
    rewrite lookup_seq_ge by lia. apply lookup_ge_None_2. lia.
Qed.

(** ** Interrupts during [drum_fill_buffer] *)

Lemma dma_handler_eq s :
  dma_handler s = set_buffer_playing (buffer_playing (dma_handler s)) s.
Proof. unfold dma_handler. by destruct (buffer_playing s =? N_BUFFERS - 1). Qed.

Lemma interrupts_S k s : interrupts (S k) s = dma_handler (interrupts k s).
Proof. reflexivity. Qed.

Lemma interrupts_add a b s :
  interrupts (a + b) s = interrupts a (interrupts b s).
Proof. unfold interrupts. apply Nat.iter_add. Qed.

(** Interrupts change [buffer_playing] and nothing else. *)
Lemma interrupts_eq k s :
  interrupts k s = set_buffer_playing (buffer_playing (interrupts k s)) s.
Proof.
  induction k as [|k IH]; [by destruct s|].
  rewrite interrupts_S, dma_handler_eq.
  generalize (buffer_playing (dma_handler (interrupts k s))). intros x.
  rewrite IH. reflexivity.
Qed.

Lemma generate_sample_pair st : generate_sample st = (next st, emitted st).
Proof. unfold next, emitted. by destruct (generate_sample st). Qed.

Lemma fill_body_eq i st :
  fill_body i st =
  set_buffer (buffer_store (buffer_to_fill st) i (emitted st) (buffer st))
    (next st).
Proof.
  unfold fill_body. rewrite generate_sample_pair.
  by destruct (next_static st) as (-> & _ & -> & _).
Qed.

Lemma fill_body_ring i st :
  buffer_playing (fill_body i st) = buffer_playing st /\
  buffer_to_fill (fill_body i st) = buffer_to_fill st.
Proof.
  rewrite fill_body_eq. cbn [buffer_playing buffer_to_fill set_buffer].
  by destruct (next_static st) as (_ & -> & -> & _).
Qed.

(** The loop body does not look at [buffer_playing]. *)
Lemma fill_body_set_buffer_playing x i st :
  fill_body i (set_buffer_playing x st) = set_buffer_playing x (fill_body i st).
Proof.
  rewrite (fill_body_eq i st). unfold fill_body.
  change (set_buffer_playing x st)
    with (set_ring (buffer st) x (buffer_to_fill st) st).
  rewrite generate_sample_set_ring. cbn [buffer buffer_to_fill set_ring].
  destruct (next_static st) as (_ & _ & Hf & _).
  generalize dependent (next st). intros r Hf.
  generalize (buffer_store (buffer_to_fill st) i (emitted st) (buffer st)).
  intros B. destruct r. cbn in *. by rewrite Hf.
Qed.

(** So it commutes with the handler. *)
Lemma fill_body_dma_handler i s :
  fill_body i (dma_handler s) = dma_handler (fill_body i s).
Proof.
  rewrite dma_handler_eq, fill_body_set_buffer_playing.
  rewrite (dma_handler_eq (fill_body i s)). f_equal.
  unfold dma_handler.
  destruct (fill_body_ring i s) as (Hp & _). rewrite Hp.
  by destruct (buffer_playing s =? N_BUFFERS - 1).
Qed.

Lemma fill_body_interrupts k i s :
  fill_body i (interrupts k s) = interrupts k (fill_body i s).
Proof.
  induction k as [|k IH]; [done|].
  by rewrite !interrupts_S, fill_body_dma_handler, IH.
Qed.

Lemma irq_count_S irq n :
  irq_count irq (S n) = (irq n + irq_count irq n)%nat.
Proof. reflexivity. Qed.

(** The loop with interrupts is the loop without them, followed by the
    interrupts. *)
Lemma fill_loop_irq irq n st :
  for_loop n (fill_body_irq irq) st =
  interrupts (irq_count irq n) (for_loop n fill_body st).
Proof.
  induction n as [|n IH]; [done|].
  cbn [for_loop]. rewrite IH, irq_count_S. unfold fill_body_irq.
  by rewrite <- interrupts_add, fill_body_interrupts.
Qed.

Lemma at_store_eq irq i st :
  at_store irq i st =
  interrupts (irq_count irq (S i)) (for_loop i fill_body st).
Proof.
  unfold at_store. by rewrite fill_loop_irq, <- interrupts_add, irq_count_S.
Qed.

Lemma irq_count_none irq n :
  (forall i, (i < n)%nat -> irq i = 0%nat) -> irq_count irq n = 0%nat.
Proof.
  intros H. induction n as [|n IH]; [done|].
  rewrite irq_count_S, (H n) by lia.
  rewrite IH; [done|]. intros i Hi. apply H. lia.
Qed.

Lemma interrupts_fields k s :
  buffer (interrupts k s) = buffer s /\
  buffer_to_fill (interrupts k s) = buffer_to_fill s /\
  sequencer (interrupts k s) = sequencer s.
Proof. rewrite interrupts_eq. repeat split; reflexivity. Qed.

Lemma set_buffer_to_fill_interrupts x k s :
  set_buffer_to_fill x (interrupts k s) = interrupts k (set_buffer_to_fill x s).
Proof.
  induction k as [|k IH]; [done|].
  rewrite !interrupts_S, <- IH. generalize (interrupts k s). intros r.
  unfold dma_handler. cbn [buffer_playing set_buffer_to_fill].
  by destruct (buffer_playing r =? N_BUFFERS - 1).
Qed.

(** A call in which interrupts are taken leaves the state that the call
    followed by these interrupts leaves. *)
Lemma drum_fill_buffer_irq_boundary irq st :
  buffer_playing st <> buffer_to_fill st ->
  drum_fill_buffer_irq irq st =
  interrupts (irq_count irq (S (Z.to_nat BUFFER_SIZE))) (drum_fill_buffer st).
Proof.
  intros Hne. unfold drum_fill_buffer_irq, drum_fill_buffer.
  destruct (Z.eqb_spec (buffer_playing st) (buffer_to_fill st)); [done|].
  cbn zeta. rewrite fill_loop_irq, <- interrupts_add, <- irq_count_S.
  generalize (irq_count irq (S (Z.to_nat BUFFER_SIZE))). intros k.
  generalize (for_loop (Z.to_nat BUFFER_SIZE) fill_body st). intros r.
  destruct (interrupts_fields k r) as (_ & -> & _).
  apply set_buffer_to_fill_interrupts.
Qed.

Lemma drum_fill_buffer_irq_none irq st :
  (forall i, (i <= Z.to_nat BUFFER_SIZE)%nat -> irq i = 0%nat) ->
  drum_fill_buffer_irq irq st = drum_fill_buffer st.
Proof.
  intros H.
  destruct (decide (buffer_playing st = buffer_to_fill st)) as [Heq|Hne].
  - unfold drum_fill_buffer_irq, drum_fill_buffer.
    by rewrite Heq, Z.eqb_refl.
  - rewrite drum_fill_buffer_irq_boundary by done.
    rewrite irq_count_none; [done|]. intros i Hi. apply H. lia.
Qed.

Lemma interrupts_steps k s : rtc step s (interrupts k s).
Proof.
  induction k as [|k IH]; [apply rtc_refl|].
  rewrite interrupts_S. eapply rtc_r; [exact IH|apply step_irq].
Qed.

(** The states of the program at the boundaries of calls are those of the
    steps, also when interrupts are taken inside the calls. *)
Lemma drum_fill_buffer_irq_steps irq st :
  rtc step st (drum_fill_buffer_irq irq st).
Proof.
  destruct (decide (buffer_playing st = buffer_to_fill st)) as [Heq|Hne].
  - unfold drum_fill_buffer_irq. rewrite Heq, Z.eqb_refl. apply rtc_refl.
  - rewrite drum_fill_buffer_irq_boundary by done.
    eapply rtc_l; [apply step_fill|apply interrupts_steps].
Qed.

(** With interrupts or without, the loop writes block [buffer_to_fill] of
    the ring and no other. *)
Lemma fill_loop_irq_other irq n st k :
  k <> buffer_to_fill st ->
  block_at (for_loop n (fill_body_irq irq) st) k = block_at st k.
Proof.
  intros Hk. unfold block_at. destruct (Z.ltb_spec k 0); [done|].
  rewrite fill_loop_irq.
  destruct (interrupts_fields (irq_count irq n) (for_loop n fill_body st))
    as (-> & _).
  rewrite fill_loop. cbn [buffer set_buffer].
  apply write_buffer_other.
  destruct (Z.ltb_spec (buffer_to_fill st) 0); [by left|right]. lia.
Qed.

Lemma drum_fill_buffer_irq_other irq st k :
  k <> buffer_to_fill st ->
  block_at (drum_fill_buffer_irq irq st) k = block_at st k.
Proof.
  intros Hk. unfold drum_fill_buffer_irq.
  destruct (buffer_playing st =? buffer_to_fill st); [done|]. cbn zeta.
  rewrite <- (fill_loop_irq_other irq (Z.to_nat BUFFER_SIZE) st k Hk).
  generalize (for_loop (Z.to_nat BUFFER_SIZE) (fill_body_irq irq) st).
  intros r. unfold block_at. destruct (k <? 0); [done|].
  cbn [buffer set_buffer_to_fill].
  by destruct (interrupts_fields (irq (Z.to_nat BUFFER_SIZE)) r) as (-> & _).
Qed.

Lemma at_store_cursors irq i st :
  (forall j, (j <= i)%nat -> irq j = 0%nat) ->
  buffer_playing (at_store irq i st) = buffer_playing st /\
  buffer_to_fill (at_store irq i st) = buffer_to_fill st.
Proof.
  intros H. rewrite at_store_eq, irq_count_none by (intros; apply H; lia).
  change (interrupts 0 (for_loop i fill_body st)) with (for_loop i fill_body st).
  rewrite fill_loop.
  cbn [buffer_playing buffer_to_fill set_buffer].
  by destruct (run_ring i st) as (_ & -> & ->).
Qed.

(** C2.  When [buffer_playing] equals [buffer_to_fill], a call of
    [drum_fill_buffer] returns the state it was given: no block is
    written, [buffer_to_fill] keeps its value and [generate_sample] is not
    called, whatever interrupts arrive.  A call that passes the test
    stores into block [buffer_to_fill] only, at every point of its loop
    and whatever interrupts are taken, so the block that [buffer_playing]
    designated when the call was made is left as it was.  When no
    interrupt is taken before the last store, no store goes into the block
    that [buffer_playing] designates. *)
Theorem C2_fill_is_noop_when_caught_up irq st :
  (buffer_playing st = buffer_to_fill st ->
   drum_fill_buffer_irq irq st = st /\ drum_fill_buffer st = st) /\
  drum_fill_buffer_irq (fun _ => 0%nat) st = drum_fill_buffer st /\
  (forall n k, k <> buffer_to_fill st ->
     block_at (for_loop n (fill_body_irq irq) st) k = block_at st k) /\
  (forall k, k <> buffer_to_fill st ->
     block_at (drum_fill_buffer_irq irq st) k = block_at st k) /\
  block_at (drum_fill_buffer_irq irq st) (buffer_playing st) =
    block_at st (buffer_playing st) /\
  block_at (drum_fill_buffer st) (buffer_playing st) =
    block_at st (buffer_playing st) /\
  ((forall i, (i < Z.to_nat BUFFER_SIZE)%nat -> irq i = 0%nat) ->
   writes_play_block irq st = false).
Proof.
  assert (Hnoop : forall f, buffer_playing st = buffer_to_fill st ->
                    drum_fill_buffer_irq f st = st).
  { intros f H. unfold drum_fill_buffer_irq. by rewrite H, Z.eqb_refl. }
  assert (Hplay : forall f,
            block_at (drum_fill_buffer_irq f st) (buffer_playing st) =
            block_at st (buffer_playing st)).
  { intros f.
    destruct (decide (buffer_playing st = buffer_to_fill st)) as [Heq|Hne].
    - by rewrite Hnoop.
    - by apply drum_fill_buffer_irq_other. }
  assert (Hnone : drum_fill_buffer_irq (fun _ => 0%nat) st = drum_fill_buffer st)
    by (by apply drum_fill_buffer_irq_none).
  split; [|split; [exact Hnone|]].
  - intros H. split; [by apply Hnoop|]. rewrite <- Hnone. by apply Hnoop.
  - split; [intros n k Hk; by apply fill_loop_irq_other|].
    split; [intros k Hk; by apply drum_fill_buffer_irq_other|].
    split; [apply Hplay|]. split; [rewrite <- Hnone; apply Hplay|].
    intros Hirq. unfold writes_play_block. apply andb_false_iff.
    destruct (decide (buffer_playing st = buffer_to_fill st)) as [Heq|Hne].
    { left. rewrite Heq, Z.eqb_refl. reflexivity. }
    right. apply not_true_is_false. intros E.
    apply existsb_exists in E as (i & Hi & E). apply in_seq in Hi.
    destruct (at_store_cursors irq i st) as (Hp & Hf);
      [intros j Hj; apply Hirq; lia|].
    rewrite Hp, Hf in E. apply Z.eqb_eq in E. exact (Hne E).
Qed.

(** ** Priming *)

Lemma sequencer_set_ring_fields x y st :
  sequencer (set_buffer_to_fill x (set_buffer y st)) = sequencer st.
Proof. reflexivity. Qed.

Lemma set_buffer_playing_fields x st :
  buffer (set_buffer_playing x st) = buffer st /\
  buffer_playing (set_buffer_playing x st) = x /\
  buffer_to_fill (set_buffer_playing x st) = buffer_to_fill st /\
  sequencer (set_buffer_playing x st) = sequencer st.
Proof. repeat split; reflexivity. Qed.

Lemma prime_loop s0 n :
  buffer_playing s0 = -1 ->
  buffer_to_fill s0 = 0 ->
  buffer s0 = replicate (Z.to_nat N_BUFFERS) (replicate (Z.to_nat BUFFER_SIZE) 0) ->
  (n <= Z.to_nat N_BUFFERS)%nat ->
  let s := for_loop n (fun _ => drum_fill_buffer) s0 in
  sequencer s = sequencer (run (Z.to_nat BUFFER_SIZE * n) s0) /\
  buffer_playing s = -1 /\
  buffer_to_fill s = Z.of_nat n mod N_BUFFERS /\
  length (buffer s) = Z.to_nat N_BUFFERS /\
  forall b, (b < Z.to_nat N_BUFFERS)%nat ->
    buffer s !! b =
    Some (if decide (b < n)%nat
          then frames (Z.to_nat BUFFER_SIZE) (run (Z.to_nat BUFFER_SIZE * b) s0)
          else replicate (Z.to_nat BUFFER_SIZE) 0).
Proof.
  intros Hp Hf Hb. induction n as [|n IH]; intros Hn; cbn zeta.
  - cbn [for_loop]. rewrite Nat.mul_0_r. split; [done|]. split; [done|].
    split; [by rewrite Hf|]. rewrite Hb. split; [by rewrite length_replicate|].
    intros b Hlt. rewrite decide_False by lia.
    by rewrite lookup_replicate_2.
  - cbn [for_loop]. destruct IH as (Hseq & Hp' & Hf' & Hlen & Hblk); [lia|].
    set (s := for_loop n (fun _ => drum_fill_buffer) s0) in *.
    assert (Hfn : buffer_to_fill s = Z.of_nat n).
    { rewrite Hf'. apply Z.mod_small. unfold N_BUFFERS in *. lia. }
    rewrite drum_fill_buffer_fills by lia.
    rewrite sequencer_set_ring_fields, buffer_set_buffer_to_fill,
      buffer_playing_set_ring_fields, buffer_to_fill_set_buffer_to_fill.
    split; [|split; [|split; [|split]]].
    + rewrite sequencer_run, Hseq, <- sequencer_run, <- run_add.
      do 2 f_equal. lia.
    + by destruct (run_ring (Z.to_nat BUFFER_SIZE) s) as (_ & -> & _).
    + rewrite Hfn, int_add_small
        by (unfold N_BUFFERS in *; int_range).
      rewrite Z.rem_mod_nonneg by (unfold N_BUFFERS; lia).
      f_equal. lia.
    + rewrite write_buffer_block by lia. by rewrite length_alter.
    + intros b Hlt. rewrite write_buffer_block by lia.
      rewrite Hfn, Nat2Z.id.
      destruct (decide (b = n)) as [->|Hne].
      * rewrite list_lookup_alter_eq, Hblk by done.
        rewrite decide_False, decide_True by lia.
        cbn [fmap option_fmap option_map]. f_equal.
        rewrite write_block_full by (by rewrite length_replicate).
        apply frames_sequencer. done.
      * rewrite list_lookup_alter_ne, Hblk by done.
        repeat case_decide; try lia; done.
Qed.

(** C7 (as the code has it).  When the priming loop of [main] is over,
    every block [b] of the ring holds the [BUFFER_SIZE] words returned by
    the calls [BUFFER_SIZE * b], ... of [generate_sample], so all
    [N_BUFFERS * BUFFER_SIZE] frames generated so far are in the ring;
    [buffer_to_fill] is back at 0 and [buffer_playing] is set to
    [N_BUFFERS - 1]: the fill cursor is one block ahead of the play
    cursor, modulo [N_BUFFERS]. *)
Theorem C7_priming_fills_every_block :
  let st0 := main_timing program_start in
  let st := main_prime st0 in
  length (buffer st) = Z.to_nat N_BUFFERS /\
  (forall b, (b < Z.to_nat N_BUFFERS)%nat ->
     buffer st !! b =
     Some (frames (Z.to_nat BUFFER_SIZE)
             (run (Z.to_nat BUFFER_SIZE * b) st0))) /\
  sequencer st =
    sequencer (run (Z.to_nat BUFFER_SIZE * Z.to_nat N_BUFFERS) st0) /\
  buffer_to_fill st = 0 /\
  buffer_playing st = N_BUFFERS - 1 /\
  buffer_to_fill st = (buffer_playing st + 1) mod N_BUFFERS.
Proof.
  intros st0 st. unfold st, main_prime.
  set (s0 := set_buffer_playing (-1) st0).
  assert (Hs0 : sequencer s0 = sequencer st0) by reflexivity.
  destruct (prime_loop s0 (Z.to_nat N_BUFFERS))
    as (Hseq & Hp & Hf & Hlen & Hblk); [done|done|done|lia|].
  clearbody s0.
  generalize dependent (for_loop (Z.to_nat N_BUFFERS)
                          (fun _ : nat => drum_fill_buffer) s0).
  intros s Hseq Hp Hf Hlen Hblk.
  destruct (set_buffer_playing_fields (N_BUFFERS - 1) s)
    as (-> & -> & -> & ->).
  assert (Hrun : forall k, sequencer (run k s0) = sequencer (run k st0)).
  { intros k. by rewrite !sequencer_run, Hs0. }
  split; [done|]. split; [|split; [|split; [|split]]].
  - intros b Hb. rewrite Hblk by done. rewrite decide_True by done.
    f_equal. apply frames_sequencer, Hrun.
  - rewrite <- Hrun. exact Hseq.
  - rewrite Hf. reflexivity.
  - reflexivity.
  - rewrite Hf. reflexivity.
Qed.

(** ** The timing parameters *)

Lemma run_timing n st :
  samplesPerBeat (run n st) = samplesPerBeat st /\
  samplesPerTick (run n st) = samplesPerTick st.
Proof.
  induction n as [|n [IH1 IH2]]; [done|]. rewrite run_S.
  by destruct (next_static (run n st)) as (_ & _ & _ & -> & ->).
Qed.

Lemma drum_fill_buffer_timing st :
  samplesPerBeat (drum_fill_buffer st) = samplesPerBeat st /\
  samplesPerTick (drum_fill_buffer st) = samplesPerTick st.
Proof.
  destruct (decide (buffer_playing st = buffer_to_fill st)) as [Heq|Hne].
  - unfold drum_fill_buffer. by rewrite Heq, Z.eqb_refl.
  - rewrite drum_fill_buffer_fills by done.
    destruct (timing_set_ring_fields
                (Z.rem (int_add (buffer_to_fill st) 1) N_BUFFERS)
                (write_buffer (Z.to_nat BUFFER_SIZE) st (buffer st))
                (run (Z.to_nat BUFFER_SIZE) st)) as [-> ->].
    apply run_timing.
Qed.

Lemma dma_handler_timing st :
  samplesPerBeat (dma_handler st) = samplesPerBeat st /\
  samplesPerTick (dma_handler st) = samplesPerTick st.
Proof. unfold dma_handler. by case_match. Qed.

Lemma main_prime_timing st :
  samplesPerBeat (main_prime st) = samplesPerBeat st /\
  samplesPerTick (main_prime st) = samplesPerTick st.
Proof.
  unfold main_prime. cbn [samplesPerBeat samplesPerTick set_buffer_playing].
  apply (for_loop_ind (fun s => samplesPerBeat s = samplesPerBeat st /\
                                samplesPerTick s = samplesPerTick st)).
  - done.
  - intros _ x _ [<- <-]. apply drum_fill_buffer_timing.
Qed.

Lemma step_timing st st' :
  step st st' ->
  samplesPerBeat st' = samplesPerBeat st /\
  samplesPerTick st' = samplesPerTick st.
Proof.
  intros []; [apply drum_fill_buffer_timing | apply dma_handler_timing].
Qed.

(** C8.  [main] computes [samplesPerBeat = SAMPLE_RATE * 60 / BPM] and
    [samplesPerTick = samplesPerBeat * BEATS_PER_BAR / BAR_LEN] with the
    truncating division of C: 17085 (remainder 105) and 949 (remainder
    12).  Priming, the first call of [dma_handler] and every later call of
    [drum_fill_buffer] or [dma_handler] leave both as they are. *)
Theorem C8_timing_computed_once st :
  let st0 := main_timing st in
  samplesPerBeat st0 = SAMPLE_RATE * 60 ÷ BPM /\
  samplesPerTick st0 = samplesPerBeat st0 * BEATS_PER_BAR ÷ BAR_LEN /\
  SAMPLE_RATE * 60 = samplesPerBeat st0 * BPM + 105 /\
  samplesPerBeat st0 * BEATS_PER_BAR = samplesPerTick st0 * BAR_LEN + 12 /\
  samplesPerBeat st0 = 17085 /\
  samplesPerTick st0 = 949 /\
  forall st', rtc step (main_startup st) st' ->
    samplesPerBeat st' = samplesPerBeat st0 /\
    samplesPerTick st' = samplesPerTick st0.
Proof.
  intros st0.
  assert (Hb : samplesPerBeat st0 = 17085) by (vm_compute; reflexivity).
  assert (Ht : samplesPerTick st0 = 949) by (vm_compute; reflexivity).
  rewrite Hb, Ht.
  repeat (split; [vm_compute; reflexivity|]).
  intros st' Hsteps.
  assert (Hstart : samplesPerBeat (main_startup st) = 17085 /\
                   samplesPerTick (main_startup st) = 949).
  { unfold main_startup.
    destruct (dma_handler_timing (main_prime (main_timing st))) as [-> ->].
    destruct (main_prime_timing (main_timing st)) as [-> ->].
    split; [exact Hb | exact Ht]. }
  induction Hsteps as [x|x y z Hstep _ IH]; [done|].
  apply IH. destruct (step_timing _ _ Hstep) as [-> ->]. done.
Qed.

(** ** The pattern tables *)

Lemma string_get_in n s c :
  String.get n s = Some c -> In c (list_ascii_of_string s).
Proof.
  revert n. induction s as [|a s IH]; intros n; [done|].
  destruct n as [|n]; cbn.
  - intros [= ->]. by left.
  - intros H. right. by apply (IH n).
Qed.

Lemma string_get_lt n s : (n < String.length s)%nat -> is_Some (String.get n s).
Proof.
  revert n. induction s as [|a s IH]; intros n; cbn; [lia|].
  destruct n as [|n]; [by eexists|]. intros H. apply IH. lia.
Qed.

Lemma patterns_rows_ok :
  forallb (fun p => forallb row_ok (pattern p))
          [pattern0; pattern1; pattern2] = true.
Proof. vm_compute. reflexivity. Qed.

Lemma patterns_rows_length :
  forallb (fun p => forallb (fun row => String.length row =? 72)%nat (pattern p))
          [pattern0; pattern1; pattern2] = true.
Proof. vm_compute. reflexivity. Qed.

(** What a successful read of a cell has gone through. *)
Lemma cell_Some b i t c :
  cell b i t = Some c ->
  exists p row,
    In p [pattern0; pattern1; pattern2] /\ pattern p !! i = Some row /\
    String.get (Z.to_nat t) row = Some c.
Proof.
  unfold cell, cell_in. destruct ((b <? 0) || (t <? 0)); [done|].
  destruct (bars !! Z.to_nat b) as [k|]; [|done]. cbn.
  destruct (k <? 0); [done|].
  destruct (mjoin (patterns !! Z.to_nat k)) as [p|] eqn:Hp; [|done]. cbn.
  destruct (pattern p !! i) as [row|] eqn:Hrow; [|done]. cbn. intros Hc.
  exists p, row. split; [|done].
  unfold patterns in Hp. generalize dependent (Z.to_nat k). intros n Hp.
  do 3 (destruct n as [|n]; [simplify_eq/=; auto|]).
  do 7 (destruct n as [|n]; [done|]). done.
Qed.

Lemma cell_char b i t c :
  cell b i t = Some c -> c = " "%char \/ trigger_digit c = true.
Proof.
  intros (p & row & Hp & Hrow & Hc)%cell_Some.
  pose proof patterns_rows_ok as Hok.
  rewrite forallb_forall in Hok. specialize (Hok p Hp).
  rewrite forallb_forall in Hok.
  specialize (Hok row (proj1 (list_elem_of_In _ _)
                         (list_elem_of_lookup_2 _ _ _ Hrow))).
  unfold row_ok in Hok. rewrite forallb_forall in Hok.
  specialize (Hok c (string_get_in _ _ _ Hc)).
  apply orb_true_iff in Hok as [Hsp|Hd]; [left|by right].
  by apply Ascii.eqb_eq.
Qed.

Lemma cell_in_range b i t :
  0 <= b < LOOP_BARS -> 0 <= t < BAR_LEN -> (i < N_VOICES)%nat ->
  is_Some (cell b i t).
Proof.
  unfold LOOP_BARS, BAR_LEN, N_VOICES. intros Hb Ht Hi.
  unfold cell, cell_in.
  destruct (Z.ltb_spec b 0); [lia|]. destruct (Z.ltb_spec t 0); [lia|].
  cbn [orb].
  assert (exists n, Z.to_nat b = n /\ (n < 10)%nat) as (n & -> & Hn)
    by (eexists; split; [done|lia]).
  assert (Hrow : forall p, In p [pattern0; pattern1; pattern2] ->
            is_Some (row ← pattern p !! i; String.get (Z.to_nat t) row)).
  { intros p Hp. pose proof patterns_rows_length as Hlen.
    rewrite forallb_forall in Hlen. specialize (Hlen p Hp).
    rewrite forallb_forall in Hlen.
    assert (Hp6 : length (pattern p) = 6%nat)
      by (destruct Hp as [<-|[<-|[<-|[]]]]; reflexivity).
    destruct (pattern p !! i) as [row|] eqn:Er;
      [|apply lookup_ge_None in Er; lia].
    cbn. apply string_get_lt.
    specialize (Hlen row (proj1 (list_elem_of_In _ _)
                            (list_elem_of_lookup_2 _ _ _ Er))).
    apply Nat.eqb_eq in Hlen. lia. }
  do 10 (destruct n as [|n]; [cbn; apply Hrow; cbn; auto|]). lia.
Qed.

Lemma trigger_digit_emph c :
  trigger_digit c = true ->
  0 <= (char_code c - char_code "1") * 12 <= 96.
Proof.
  unfold trigger_digit. change (char_code "1") with 49.
  change (char_code "9") with 57. intros H.
  apply andb_true_iff in H as [H1 H2].
  apply Z.leb_le in H1, H2. lia.
Qed.

(** X1.  Inside the transport bounds every read of a pattern cell by
    [generate_sample] stays inside the tables: the bar designates a
    pattern that is there (not one of the null pointers), the row and the
    column exist.  The character read is a space or a digit ['1'] to
    ['9'], so the emphasis of a trigger is between 0 and 96. *)
Theorem X1_pattern_reads_in_bounds st i :
  transport_inv st -> (i < N_VOICES)%nat ->
  exists c,
    cell (bar st) i (tickOfBar st) = Some c /\
    (c = " "%char \/
     trigger_digit c = true /\ forall v, 0 <= emph (trigger c v) <= 96).
Proof.
  intros (_ & Ht & Hb) Hi.
  destruct (cell_in_range (bar st) i (tickOfBar st) Hb Ht Hi) as [c Hc].
  exists c. split; [done|].
  destruct (cell_char _ _ _ _ Hc) as [->|Hd]; [by left|right].
  split; [done|]. intros v. rewrite trigger_emph.
  by apply trigger_digit_emph.
Qed.

(** ** What a call does to a voice *)

Lemma trigger_static c v :
  pan (trigger c v) = pan v /\ volume (trigger c v) = volume v /\
  sample (trigger c v) = sample v.
Proof. done. Qed.

Lemma after_trigger_static st i v :
  pan (after_trigger st i v) = pan v /\
  volume (after_trigger st i v) = volume v /\
  sample (after_trigger st i v) = sample v.
Proof. unfold after_trigger. by destruct (trigger_char st i). Qed.

Lemma played_static v :
  pan (played v) = pan v /\ volume (played v) = volume v /\
  sample (played v) = sample v /\ emph (played v) = emph v.
Proof. unfold played. by repeat case_match. Qed.

Lemma trigger_phase_length st :
  length (voices (trigger_phase st)) = length (voices st).
Proof.
  unfold trigger_phase, trigger_phase_in.
  destruct (sampleOfTick st =? 0); [|done].
  apply (for_loop_ind (fun s => length (voices s) = length (voices st)));
    [done|].
  intros i x _ Hx. unfold trigger_body_in.
  destruct (cell_in _ _ _ _ _) as [c|]; [|done]. destruct (negb _); [|done].
  cbn [voices set_voices]. by rewrite length_alter.
Qed.

Lemma play_phase_length st :
  length (voices (fst (play_phase st))) = length (voices st).
Proof.
  unfold play_phase.
  apply (for_loop_ind
           (fun s : state * list Z =>
              length (voices (fst s)) = length (voices st))); [done|].
  intros i [x smp] _ Hx. unfold play_body. cbn [fst] in *.
  repeat case_match; cbn [fst voices set_voices];
    by rewrite ?length_alter.
Qed.

Lemma next_voices_length st : length (voices (next st)) = length (voices st).
Proof.
  rewrite next_voices. unfold frame_voices.
  by rewrite play_phase_length, trigger_phase_length.
Qed.

Lemma next_voice st i v :
  (i < N_VOICES)%nat -> voices st !! i = Some v ->
  voices (next st) !! i = Some (played (after_trigger st i v)).
Proof.
  intros Hi Hv. by rewrite next_voices, frame_voices_lookup, Hv.
Qed.

(** X2.  A call of [generate_sample] changes nothing of a voice but its
    cursor and its emphasis: pan, volume and sample reference are the ones
    it had, the emphasis too unless the call triggers the voice, and the
    number of voices is the same. *)
Theorem X2_call_keeps_pan_volume_sample st i v :
  (i < N_VOICES)%nat -> voices st !! i = Some v ->
  exists v',
    voices (next st) !! i = Some v' /\
    pan v' = pan v /\ volume v' = volume v /\ sample v' = sample v /\
    (triggered st i = false -> emph v' = emph v) /\
    length (voices (next st)) = length (voices st).
Proof.
  intros Hi Hv. exists (played (after_trigger st i v)).
  split; [by apply next_voice|].
  destruct (played_static (after_trigger st i v)) as (-> & -> & -> & ->).
  destruct (after_trigger_static st i v) as (-> & -> & ->).
  repeat split; [|apply next_voices_length].
  intros Hq. by rewrite not_triggered.
Qed.

(** X3.  A voice whose sample reference is negative is silent and its
    cursor is never advanced: every call reads 0 for it, and after any
    number of calls its cursor is the one it had or the 1 of a trigger. *)
Theorem X3_negative_sample_voice_is_mute st i v :
  (i < N_VOICES)%nat -> voices st !! i = Some v -> sample v < 0 ->
  forall n,
    frame_amplitudes (run n st) !! i = Some 0 /\
    exists v',
      voices (run n st) !! i = Some v' /\ sample v' = sample v /\
      (pos v' = pos v \/ pos v' = 1).
Proof.
  intros Hi Hv Hs n.
  assert (H : exists v', voices (run n st) !! i = Some v' /\
                         sample v' = sample v /\ (pos v' = pos v \/ pos v' = 1)).
  { induction n as [|n (v' & Hv' & Hs' & Hp')].
    - exists v. auto.
    - rewrite run_S, (next_voice _ _ _ Hi Hv').
      eexists. split; [done|].
      destruct (after_trigger_static (run n st) i v') as (_ & _ & Hs1).
      assert (Hpl : played (after_trigger (run n st) i v') =
                    after_trigger (run n st) i v').
      { unfold played. rewrite Hs1, Hs'.
        by destruct (Z.leb_spec 0 (sample v)); [lia|]. }
      rewrite Hpl, Hs1. split; [done|].
      unfold after_trigger. destruct (trigger_char _ _); [by right|done]. }
  destruct H as (v' & Hv' & Hs' & Hp'). split; [|by exists v'].
  rewrite (frame_amplitudes_lookup _ _ _ Hi Hv'). f_equal.
  unfold amplitude.
  destruct (after_trigger_static (run n st) i v') as (_ & _ & ->).
  rewrite Hs'. by destruct (Z.leb_spec 0 (sample v)); [lia|].
Qed.

(** X4.  A trigger restarts the voice whatever it was doing: the call
    reads the waveform at index 1 (index 0 is not played), and leaves the
    voice as it would an idle voice without emphasis. *)
Theorem X4_trigger_restarts_the_voice st i v c :
  sampleOfTick st = 0 ->
  cell (bar st) i (tickOfBar st) = Some c ->
  c <> " "%char ->
  voices st !! i = Some v ->
  0 <= sample v ->
  frame_amplitudes st !! i =
    Some (array_get (samples (sounds !!! Z.to_nat (sample v))) 1) /\
  voices (next st) !! i =
    Some (played (trigger c (set_emph 0 (set_pos 0 v)))).
Proof.
  intros Hs Hc Hsp Hv Hsample.
  pose proof (cell_voice _ _ _ _ Hc) as Hi.
  assert (Ht : after_trigger st i v = trigger c v).
  { unfold after_trigger. rewrite (trigger_char_first_frame st i c Hs Hc).
    destruct (Ascii.eqb_spec c " "); [done|done]. }
  split.
  - rewrite (frame_amplitudes_lookup _ _ _ Hi Hv), Ht. f_equal.
    unfold amplitude. cbn [sample pos trigger set_emph set_pos].
    by destruct (Z.leb_spec 0 (sample v)); [|lia].
  - by rewrite (next_voice _ _ _ Hi Hv), Ht.
Qed.

(** ** Array bounds and integer range in [generate_sample] *)

(** The entries of the bank. *)
Lemma sounds_lookup k :
  bank_ok -> 0 <= k < 5 ->
  exists a, sounds !!! Z.to_nat k = mkSounds a (array_len a) /\ waveform_ok a.
Proof.
  intros (H0 & H1 & H2 & H3 & H4) Hk.
  assert (k = 0 \/ k = 1 \/ k = 2 \/ k = 3 \/ k = 4)
    as [->|[->|[->|[->| ->]]]] by lia; eexists; split; try reflexivity; done.
Qed.

Lemma array_get_in_bounds a p :
  0 <= p < array_len a ->
  exists x, a !! Z.to_nat p = Some x /\ array_get a p = x.
Proof.
  unfold array_len, array_get. intros Hp.
  destruct (Z.ltb_spec p 0); [lia|].
  destruct (a !! Z.to_nat p) as [x|] eqn:E; [by exists x|].
  apply lookup_ge_None in E. lia.
Qed.

Lemma trigger_char_digit st i c :
  trigger_char st i = Some c -> trigger_digit c = true.
Proof.
  unfold trigger_char. destruct (sampleOfTick st =? 0); [|done].
  destruct (cell _ _ _) as [c'|] eqn:Hc; [|done].
  destruct (Ascii.eqb_spec c' " "); cbn; [done|]. intros [= <-].
  by destruct (cell_char _ _ _ _ Hc).
Qed.

Lemma after_trigger_inv st i v :
  bank_ok -> voice_inv v -> voice_inv (after_trigger st i v).
Proof.
  intros Hbank (Hpan & Hvol & Hs & He & Hp). unfold after_trigger.
  destruct (trigger_char st i) as [c|] eqn:Hc; [|done].
  apply trigger_char_digit, trigger_digit_emph in Hc.
  unfold voice_inv. rewrite trigger_emph. cbn [pan volume sample pos trigger
    set_emph set_pos].
  destruct (sounds_lookup _ Hbank Hs) as (a & -> & (Hlen & _) & _).
  cbn [len]. lia.
Qed.

Lemma played_inv v : bank_ok -> voice_inv v -> voice_inv (played v).
Proof.
  intros Hbank (Hpan & Hvol & Hs & He & Hp).
  destruct (sounds_lookup _ Hbank Hs) as (a & Ha & (Hlen & Hmax) & _).
  unfold voice_inv, played. rewrite Ha in *. cbn [len] in *.
  destruct (Z.leb_spec 0 (sample v)); [|lia].
  destruct (Z.eqb_spec (pos v) 0); cbn [negb].
  - rewrite Ha. cbn [len]. lia.
  - unfold INT_MAX in Hmax.
    rewrite int_add_small by int_range.
    unfold to_size_t. rewrite Z.mod_small by lia.
    cbn [pan volume sample emph pos set_pos]. rewrite Ha. cbn [len].
    destruct (Z.leb_spec (array_len a) (pos v + 1)); lia.
Qed.

Lemma next_voices_inv st : bank_ok -> voices_inv st -> voices_inv (next st).
Proof.
  intros Hbank [Hlen Hall]. split; [by rewrite next_voices_length|].
  apply Forall_lookup. intros i v' Hv'.
  assert (Hi : (i < N_VOICES)%nat).
  { apply lookup_lt_Some in Hv'. rewrite next_voices_length in Hv'. lia. }
  destruct (lookup_lt_is_Some_2 (voices st) i) as [v Hv]; [lia|].
  rewrite (next_voice _ _ _ Hi Hv) in Hv'. injection Hv' as <-.
  apply played_inv, after_trigger_inv; try done.
  by apply (Forall_lookup_1 _ _ _ _ Hall Hv).
Qed.

Lemma run_voices_inv n st : bank_ok -> voices_inv st -> voices_inv (run n st).
Proof.
  intros Hbank Hinv. induction n as [|n IH]; [done|].
  rewrite run_S. by apply next_voices_inv.
Qed.

Lemma program_voices_inv : bank_ok -> voices_inv (main_timing program_start).
Proof.
  intros (H0 & H1 & H2 & H3 & H4). split; [done|].
  destruct H0 as [H0 _], H1 as [H1 _], H2 as [H2 _], H3 as [H3 _],
    H4 as [H4 _].
  cbn [voices main_timing set_samplesPerTick set_samplesPerBeat
    program_start]. unfold voices_init.
  repeat (constructor; [unfold voice_inv, sounds; simpl; lia|]).
  constructor.
Qed.

Lemma frame_reads_in_bounds st :
  bank_ok -> voices_inv st ->
  (forall i v, (i < N_VOICES)%nat -> voices st !! i = Some v ->
     let v1 := after_trigger st i v in
     exists a,
       samples (sounds !!! Z.to_nat (sample v1)) !! Z.to_nat (pos v1) = Some a /\
       0 <= pos v1 /\
       frame_amplitudes st !! i = Some a /\
       in_int16 a) /\
  voices_inv (next st).
Proof.
  intros Hbank Hinv. split.
  - intros i v Hi Hv v1.
    assert (Hv1 : voice_inv v1).
    { apply after_trigger_inv; [done|].
      by apply (Forall_lookup_1 _ _ _ _ (proj2 Hinv) Hv). }
    destruct Hv1 as (_ & _ & Hs & _ & Hp).
    destruct (sounds_lookup _ Hbank Hs) as (a & Ha & _ & H16).
    rewrite Ha in *. cbn [len samples] in *.
    destruct (array_get_in_bounds a (pos v1) Hp) as (x & Hx & Hget).
    exists x. split; [done|]. split; [lia|]. split.
    + rewrite (frame_amplitudes_lookup _ _ _ Hi Hv). f_equal.
      unfold amplitude. fold v1. rewrite Ha. cbn [samples].
      by destruct (Z.leb_spec 0 (sample v1)); [|lia].
    + by apply (Forall_lookup_1 _ _ _ _ H16 Hx).
  - by apply next_voices_inv.
Qed.

(** X5.  With waveforms of at least two samples, every read
    [samples[voices[i].pos]] made by a call in a state where the cursors
    are inside their waveforms is inside the array, and the cursors are
    inside their waveforms again after the call.  This holds of every
    state the sequencer of the program goes through. *)
Theorem X5_waveform_reads_in_bounds st :
  bank_ok -> voices_inv st ->
  (forall i v, (i < N_VOICES)%nat -> voices st !! i = Some v ->
     let v1 := after_trigger st i v in
     exists a,
       samples (sounds !!! Z.to_nat (sample v1)) !! Z.to_nat (pos v1) = Some a /\
       0 <= pos v1 /\
       frame_amplitudes st !! i = Some a /\
       in_int16 a) /\
  voices_inv (next st) /\
  (forall n, voices_inv (run n (main_timing program_start))).
Proof.
  intros Hbank Hinv.
  destruct (frame_reads_in_bounds st Hbank Hinv) as [Hread Hnext].
  split; [exact Hread|]. split; [exact Hnext|].
  intros n. by apply run_voices_inv, program_voices_inv.
Qed.

(** *** No overflow in the mix *)

Lemma int_checked_in z : in_int z -> int_checked z = Some z.
Proof.
  unfold in_int, int_checked. intros [H1 H2].
  apply Z.leb_le in H1, H2. by rewrite H1, H2.
Qed.

Lemma contrib_bounds e vol a p :
  0 <= e <= 96 -> 0 <= vol <= 192 -> in_int16 a -> 0 <= p <= 32 ->
  - (288 * 32768) <= (e + vol) * a <= 288 * 32768 /\
  - 301989888 <= (e + vol) * a * p <= 301989888 /\
  - 301989888 <= (e + vol) * a * (32 - p) <= 301989888.
Proof.
  unfold in_int16. intros He Hv Ha Hp.
  assert (H : - (288 * 32768) <= (e + vol) * a <= 288 * 32768) by nia.
  split; [done|]. split; nia.
Qed.

(** Up to seven voices within the ranges of [voice_inv] leave head room in
    32 bits. *)
Lemma mix_loop_checked st smp n :
  (n <= 7)%nat ->
  (forall i, (i < n)%nat ->
     0 <= pan (voices st !!! i) <= 32 /\
     0 <= volume (voices st !!! i) <= 192 /\
     0 <= emph (voices st !!! i) <= 96 /\
     in_int16 (default 0 (smp !! i))) ->
  let exact f :=
    for_loop n (fun i acc => acc + f (voices st !!! i) (default 0 (smp !! i))) 0 in
  for_loop n (mix_body_checked st smp) (Some (0, 0)) =
    Some (exact contrib_left, exact contrib_right) /\
  for_loop n (mix_body st smp) (0, 0) = (exact contrib_left, exact contrib_right) /\
  - (Z.of_nat n * 301989888) <= exact contrib_left <= Z.of_nat n * 301989888 /\
  - (Z.of_nat n * 301989888) <= exact contrib_right <= Z.of_nat n * 301989888.
Proof.
  intros Hn. induction n as [|n IH]; intros Hv; cbn zeta.
  - cbn [for_loop]. repeat split; lia.
  - cbn [for_loop].
    destruct IH as (IHc & IHm & IHl & IHr); [lia|intros; apply Hv; lia|].
    rewrite IHc, IHm.
    destruct (Hv n) as (Hpan & Hvol & He & Ha); [lia|].
    destruct (contrib_bounds _ _ _ _ He Hvol Ha Hpan) as (Hm & Hl & Hr).
    unfold mix_body_checked, mix_body, contrib_left, contrib_right in *.
    cbn [fst snd mbind option_bind].
    set (v := voices st !!! n) in *. set (a := default 0 (smp !! n)) in *.
    set (L := for_loop n _ 0) in *.
    set (R := for_loop n (fun i acc => acc + (emph (voices st !!! i)
               + volume (voices st !!! i)) * default 0 (smp !! i)
               * (32 - pan (voices st !!! i))) 0) in *.
    rewrite (int_checked_in (emph v + volume v)) by int_range.
    cbn [mbind option_bind].
    rewrite (int_checked_in ((emph v + volume v) * a)) by int_range.
    cbn [mbind option_bind].
    rewrite (int_checked_in ((emph v + volume v) * a * pan v)) by int_range.
    cbn [mbind option_bind].
    rewrite (int_checked_in (L + (emph v + volume v) * a * pan v))
      by int_range.
    cbn [mbind option_bind].
    rewrite (int_checked_in (32 - pan v)) by int_range.
    cbn [mbind option_bind].
    rewrite (int_checked_in ((emph v + volume v) * a * (32 - pan v)))
      by int_range.
    cbn [mbind option_bind].
    rewrite (int_checked_in (R + (emph v + volume v) * a * (32 - pan v)))
      by int_range.
    cbn [mbind option_bind].
    split; [done|]. split; [|lia].
    unfold int_add, int_mul, int_sub.
    rewrite (wrap32_id (emph v + volume v)) by int_range.
    rewrite (wrap32_id ((emph v + volume v) * a)) by int_range.
    rewrite (wrap32_id (32 - pan v)) by int_range.
    rewrite (wrap32_id ((emph v + volume v) * a * pan v)) by int_range.
    rewrite (wrap32_id ((emph v + volume v) * a * (32 - pan v))) by int_range.
    rewrite (wrap32_id (L + _)), (wrap32_id (R + _)) by int_range.
    done.
Qed.

(** X6.  In a state where the voices are within the ranges of the program
    (volume at most 192, pan between 0 and 32, emphasis of a trigger digit)
    and the waveforms hold [int16_t] values, no operation of the mixing
    loop overflows an [int]: the loop with every operation checked
    succeeds, and the two accumulators are the sums
    [(emph + volume) * amplitude * pan] and [... * (32 - pan)] over the
    voices as unbounded integers. *)
Theorem X6_mix_never_overflows st :
  bank_ok -> voices_inv st ->
  mix_phase_checked (fst (play_phase (trigger_phase st))) (frame_amplitudes st)
    = Some (frame_output st) /\
  frame_output st =
    (mix_sum contrib_left (frame_voices st) (frame_amplitudes st),
     mix_sum contrib_right (frame_voices st) (frame_amplitudes st)) /\
  in_int (fst (frame_output st)) /\ in_int (snd (frame_output st)).
Proof.
  intros Hbank Hinv.
  destruct (frame_reads_in_bounds st Hbank Hinv) as [Hread Hnext].
  assert (Hv : forall i, (i < N_VOICES)%nat ->
     0 <= pan (frame_voices st !!! i) <= 32 /\
     0 <= volume (frame_voices st !!! i) <= 192 /\
     0 <= emph (frame_voices st !!! i) <= 96 /\
     in_int16 (default 0 (frame_amplitudes st !! i))).
  { intros i Hi. destruct Hnext as [Hlen Hall].
    rewrite next_voices in Hlen, Hall.
    destruct (lookup_lt_is_Some_2 (frame_voices st) i) as [v' Hv']; [lia|].
    rewrite (list_lookup_total_correct _ _ _ Hv').
    destruct (Forall_lookup_1 _ _ _ _ Hall Hv') as (? & ? & _ & ? & _).
    destruct (lookup_lt_is_Some_2 (voices st) i) as [v Hv];
      [destruct Hinv; lia|].
    destruct (Hread i v Hi Hv) as (a & _ & _ & -> & Ha). done. }
  unfold mix_phase_checked, frame_output, mix_sum.
  unfold frame_voices, frame_amplitudes in *.
  destruct (play_phase (trigger_phase st)) as [st1 smp]. cbn [fst snd] in *.
  destruct (mix_loop_checked st1 smp N_VOICES) as (Hc & Hm & Hl & Hr);
    [unfold N_VOICES; lia|done|].
  unfold mix_phase. rewrite Hc, Hm. cbn [fst snd].
  repeat split; unfold N_VOICES in *; int_range.
Qed.

(** ** The two channels together *)

Lemma mix_sum_total vs smp :
  mix_sum contrib_left vs smp + mix_sum contrib_right vs smp =
  mix_sum contrib_total vs smp.
Proof.
  unfold mix_sum. induction N_VOICES as [|n IH]; [done|].
  cbn [for_loop]. rewrite <- IH.
  unfold contrib_left, contrib_right, contrib_total. lia.
Qed.

(** X7.  Whatever the number of sounding voices and their pans, the two
    accumulators of the mixing loop add up, in the 32-bit arithmetic of
    the program, to 32 times the sum of [(emph + volume) * amplitude] over
    the voices: panning moves signal between the channels and never
    changes their total. *)
Theorem X7_channels_add_up_to_the_unpanned_mix st smp :
  int_add (fst (mix_phase st smp)) (snd (mix_phase st smp)) =
  wrap32 (mix_sum contrib_total (voices st) smp).
Proof.
  rewrite mix_phase_sum. cbn [fst snd]. unfold int_add.
  by rewrite wrap32_add_l, wrap32_add_r, mix_sum_total.
Qed.

(** ** Periods *)

(** X8.  Once [index1] is between 0 and 400 (it is 0 at start and between
    1 and 400 after any call), the words that [generate_sample] returns
    repeat every 400 calls. *)
Theorem X8_emitted_words_have_period_400 st n :
  index1_inv st ->
  emitted (run (n + 400) st) = emitted (run n st) /\
  1 <= index1 (run (S n) st) <= 400.
Proof.
  intros Hidx. split.
  - rewrite !emitted_eq, !run_tone_index by done.
    rewrite Nat2Z.inj_add, Z.add_assoc.
    change (Z.of_nat 400) with (1 * 400).
    by rewrite Z_mod_plus_full.
  - rewrite run_S_index1 by done.
    pose proof (Z.mod_pos_bound (index1 st + Z.of_nat n) 400). lia.
Qed.

Lemma frame_number_range st :
  transport_inv st -> 0 <= frame_number st < loop_frames st.
Proof.
  unfold transport_inv, frame_number, loop_frames, BAR_LEN, LOOP_BARS.
  intros (Hs & Ht & Hb). nia.
Qed.

(** X9.  From any position inside the bounds, the transport comes back to
    that position after [LOOP_BARS * BAR_LEN * samplesPerTick] calls, and
    not before. *)
Theorem X9_transport_period_is_the_arrangement st :
  in_int (samplesPerTick st) -> transport_inv st ->
  transport (run (Z.to_nat (loop_frames st)) st) = transport st /\
  forall k, (0 < k < Z.to_nat (loop_frames st))%nat ->
    transport (run k st) <> transport st.
Proof.
  intros Hfps Hinv.
  pose proof (frame_number_range st Hinv) as Hf.
  split.
  - apply transport_of_frame_number.
    + by apply run_transport_inv.
    + rewrite run_samplesPerTick. apply Hinv.
    + apply Hinv.
    + rewrite run_frame_number, run_samplesPerTick by done.
      rewrite Z2Nat.id by lia.
      fold (frame_number st).
      replace (frame_number st + loop_frames st)
        with (frame_number st + 1 * loop_frames st) by lia.
      rewrite Z_mod_plus_full. apply Z.mod_small. lia.
  - intros k Hk Heq.
    assert (Hfn : frame_number (run k st) = frame_number st).
    { unfold frame_number. rewrite run_samplesPerTick.
      unfold transport in Heq. injection Heq as -> -> ->. done. }
    rewrite run_frame_number in Hfn by done.
    destruct (Z_lt_le_dec (frame_number st + Z.of_nat k) (loop_frames st)).
    + rewrite Z.mod_small in Hfn by lia. lia.
    + replace (frame_number st + Z.of_nat k)
        with (frame_number st + Z.of_nat k - loop_frames st
              + 1 * loop_frames st) in Hfn by lia.
      rewrite Z_mod_plus_full, Z.mod_small in Hfn by lia. lia.
Qed.

(** X10.  The step counter wraps on equality only: in a state where
    [sampleOfTick] is not below [samplesPerTick] (as before [main] has set
    the timing, when both are 0) calls of [generate_sample] just count
    frames, and neither [tickOfBar] nor [bar] ever moves. *)
Theorem X10_transport_stuck_without_timing st n :
  samplesPerTick st <= sampleOfTick st ->
  INT_MIN <= sampleOfTick st ->
  sampleOfTick st + Z.of_nat n <= INT_MAX ->
  transport (run n st) =
    (bar st, tickOfBar st, sampleOfTick st + Z.of_nat n).
Proof.
  intros Hge Hmin Hmax. induction n as [|n IH].
  - unfold transport. cbn [run Nat.iter]. by rewrite Z.add_0_r.
  - rewrite run_S. destruct (next_transport (run n st)) as [-> _].
    assert (Hn : sampleOfTick st + Z.of_nat n <= INT_MAX) by lia.
    specialize (IH Hn).
    pose proof (run_samplesPerTick n st) as Hspt.
    generalize dependent (run n st). intros r IH Hspt.
    unfold transport in *. simplify_eq.
    destruct r as [? ? ? b t s ? fps ? ?]. cbn in *. subst.
    unfold advance_transport. cbn.
    rewrite int_add_small by int_range.
    destruct (Z.eqb_spec (sampleOfTick st + Z.of_nat n + 1) (samplesPerTick st));
      [lia|]. cbn.
    replace (Z.of_nat (S n)) with (Z.of_nat n + 1) by lia.
    by rewrite Z.add_assoc.
Qed.

(** ** The ring is not the sequencer's business *)

(** X11.  [generate_sample] neither reads nor writes the ring: two states
    that differ in [buffer], [buffer_playing] and [buffer_to_fill] only
    return the same word and are taken to states that differ in these
    only, and the ring of a state is the same after the call. *)
Theorem X11_generate_sample_ignores_the_ring st st' :
  sequencer st = sequencer st' ->
  emitted st = emitted st' /\
  sequencer (next st) = sequencer (next st') /\
  buffer (next st) = buffer st /\
  buffer_playing (next st) = buffer_playing st /\
  buffer_to_fill (next st) = buffer_to_fill st.
Proof.
  intros H. split; [|split].
  - by rewrite <- (sequencer_emitted st), <- (sequencer_emitted st'), H.
  - by rewrite !sequencer_next, H.
  - by destruct (next_static st) as (-> & -> & -> & _).
Qed.

(** ** The word returned *)

Lemma int16_of_half_mod a : in_int16 a -> int16_of_half (a mod 2 ^ 16) = a.
Proof.
  unfold in_int16, int16_of_half. intros Ha.
  destruct (Z_lt_le_dec a 0).
  - replace (a mod 2 ^ 16) with (a + 2 ^ 16).
    + destruct (Z.ltb_spec (a + 2 ^ 16) (2 ^ 15)); lia.
    + symmetry. replace a with (a + 2 ^ 16 + (-1) * 2 ^ 16) at 1 by lia.
      rewrite Z_mod_plus_full. apply Z.mod_small. lia.
  - rewrite Z.mod_small by lia.
    destruct (Z.ltb_spec a (2 ^ 15)); lia.
Qed.

Lemma smpl_d1_halves a b :
  smpl_d1 a b mod 2 ^ 16 = a mod 2 ^ 16 /\
  smpl_d1 a b / 2 ^ 16 = b mod 2 ^ 16 /\
  0 <= smpl_d1 a b < 2 ^ 32.
Proof.
  unfold smpl_d1.
  pose proof (Z.mod_pos_bound a (2 ^ 16)).
  pose proof (Z.mod_pos_bound b (2 ^ 16)).
  split; [|split].
  - rewrite Z_mod_plus_full. apply Z.mod_small. lia.
  - rewrite Z.div_add by lia. rewrite Z.div_small by lia. lia.
  - lia.
Qed.

(** X12.  The word that [generate_sample] returns fits [uint32_t], its two
    [int16_t] halves are equal (the same sample for both channels), and
    the halves of [smpl_data] give back any two [int16_t] values stored in
    them. *)
Theorem X12_returned_word_halves st a b :
  in_int16 a -> in_int16 b ->
  0 <= emitted st < 2 ^ 32 /\
  smpl_d2_0 (emitted st) = smpl_d2_1 (emitted st) /\
  smpl_d2_0 (smpl_d1 a b) = a /\
  smpl_d2_1 (smpl_d1 a b) = b.
Proof.
  intros Ha Hb. rewrite emitted_eq. unfold smpl_d2_0, smpl_d2_1.
  destruct (smpl_d1_halves (tone (tone_index st)) (tone (tone_index st)))
    as (-> & -> & Hr).
  destruct (smpl_d1_halves a b) as (-> & -> & _).
  split; [done|]. split; [done|]. by rewrite !int16_of_half_mod.
Qed.

(** ** The ring: cursors and contents *)

Lemma alter_as_insert {A : Type} (f : A -> A) (i : nat) (l : list A) x :
  l !! i = Some x -> alter f i l = <[i := f x]> l.
Proof.
  intros Hx. apply list_eq. intros j. destruct (decide (i = j)) as [->|Hne].
  - rewrite list_lookup_alter_eq, Hx, list_lookup_insert_eq; [done|].
    by eapply lookup_lt_Some.
  - by rewrite list_lookup_alter_ne, list_lookup_insert_ne.
Qed.

Lemma ring_inv_block st k :
  ring_inv st -> 0 <= k < N_BUFFERS ->
  exists blk, buffer st !! Z.to_nat k = Some blk /\
              length blk = Z.to_nat BUFFER_SIZE.
Proof.
  intros (_ & _ & Hlen & Hblk) Hk.
  destruct (lookup_lt_is_Some_2 (buffer st) (Z.to_nat k)) as [blk Hb];
    [unfold N_BUFFERS in *; lia|].
  exists blk. split; [done|]. by apply (Forall_lookup_1 _ _ _ _ Hblk Hb).
Qed.

Lemma frames_length n st : length (frames n st) = n.
Proof. unfold frames. by rewrite length_map, length_seq. Qed.

(** What a call that is not stalled does. *)
Lemma drum_fill_buffer_effect st :
  ring_inv st -> buffer_playing st <> buffer_to_fill st ->
  buffer (drum_fill_buffer st) =
    <[Z.to_nat (buffer_to_fill st) := frames (Z.to_nat BUFFER_SIZE) st]>
      (buffer st) /\
  buffer_to_fill (drum_fill_buffer st) = (buffer_to_fill st + 1) mod N_BUFFERS /\
  buffer_playing (drum_fill_buffer st) = buffer_playing st /\
  sequencer (drum_fill_buffer st) = sequencer (run (Z.to_nat BUFFER_SIZE) st) /\
  ring_inv (drum_fill_buffer st).
Proof.
  intros Hinv Hne.
  destruct (ring_inv_block st (buffer_to_fill st) Hinv) as (blk & Hblk & Hlen);
    [apply Hinv|].
  destruct Hinv as (Hf & Hp & Hlenb & Hall).
  rewrite drum_fill_buffer_fills by done.
  rewrite sequencer_set_ring_fields, buffer_set_buffer_to_fill,
    buffer_playing_set_ring_fields, buffer_to_fill_set_buffer_to_fill.
  assert (Hbuf : write_buffer (Z.to_nat BUFFER_SIZE) st (buffer st) =
    <[Z.to_nat (buffer_to_fill st) := frames (Z.to_nat BUFFER_SIZE) st]>
      (buffer st)).
  { rewrite write_buffer_block by lia.
    rewrite (alter_as_insert _ _ _ _ Hblk). by rewrite write_block_full. }
  assert (Hnext : Z.rem (int_add (buffer_to_fill st) 1) N_BUFFERS =
                  (buffer_to_fill st + 1) mod N_BUFFERS).
  { unfold N_BUFFERS in *. rewrite int_add_small by int_range.
    by rewrite Z.rem_mod_nonneg by lia. }
  rewrite Hbuf, Hnext.
  destruct (run_ring (Z.to_nat BUFFER_SIZE) st) as (_ & Hrp & _).
  do 4 (split; [done|]).
  unfold ring_inv.
  rewrite buffer_set_buffer_to_fill, buffer_playing_set_ring_fields,
    buffer_to_fill_set_buffer_to_fill, Hrp.
  split; [apply Z.mod_pos_bound; unfold N_BUFFERS; lia|].
  split; [done|]. split; [by rewrite length_insert|].
  apply Forall_insert; [done|]. apply frames_length.
Qed.

(** X13.  When the producer is not stalled and the ring is well formed, a
    call of [drum_fill_buffer] overwrites block [buffer_to_fill] with the
    words of the next [BUFFER_SIZE] calls of [generate_sample], leaves the
    other blocks and [buffer_playing] alone, moves [buffer_to_fill] one
    block on modulo [N_BUFFERS], and leaves the sequencer exactly
    [BUFFER_SIZE] frames later; the ring is well formed again. *)
Theorem X13_fill_writes_exactly_one_block st :
  ring_inv st -> buffer_playing st <> buffer_to_fill st ->
  block_at (drum_fill_buffer st) (buffer_to_fill st) =
    Some (frames (Z.to_nat BUFFER_SIZE) st) /\
  (forall k, k <> buffer_to_fill st ->
     block_at (drum_fill_buffer st) k = block_at st k) /\
  buffer_to_fill (drum_fill_buffer st) = (buffer_to_fill st + 1) mod N_BUFFERS /\
  buffer_playing (drum_fill_buffer st) = buffer_playing st /\
  sequencer (drum_fill_buffer st) = sequencer (run (Z.to_nat BUFFER_SIZE) st) /\
  ring_inv (drum_fill_buffer st).
Proof.
  intros Hinv Hne.
  destruct (drum_fill_buffer_effect st Hinv Hne) as (Hb & Hf & Hp & Hs & Hr).
  destruct (ring_inv_block st (buffer_to_fill st) Hinv) as (blk & Hblk & _);
    [apply Hinv|].
  destruct Hinv as (Hrange & _).
  split; [|split; [|done]].
  - unfold block_at. destruct (Z.ltb_spec (buffer_to_fill st) 0); [lia|].
    rewrite Hb. apply list_lookup_insert_eq. by eapply lookup_lt_Some.
  - intros k Hk. unfold block_at. destruct (Z.ltb_spec k 0); [done|].
    rewrite Hb. apply list_lookup_insert_ne. lia.
Qed.

Lemma dma_handler_in_ring s :
  -1 <= buffer_playing s < N_BUFFERS ->
  dma_handler s =
    set_buffer_playing ((buffer_playing s + 1) mod N_BUFFERS) s.
Proof.
  intros Hs. unfold dma_handler, N_BUFFERS in *.
  destruct (Z.eqb_spec (buffer_playing s) (4 - 1)) as [->|Hne]; [done|].
  rewrite int_add_small by int_range. by rewrite Z.mod_small by lia.
Qed.

(** X14.  [dma_handler] moves [buffer_playing] round the ring: from a
    cursor inside the ring (or from the -1 used while priming) the next
    value is the successor modulo [N_BUFFERS], nothing else changes, and
    [N_BUFFERS] interrupts bring the state back.  The wrap is an equality
    test: a cursor beyond the ring is only incremented and stays beyond
    it. *)
Theorem X14_dma_handler_cycles_the_play_cursor st :
  -1 <= buffer_playing st < N_BUFFERS ->
  dma_handler st =
    set_buffer_playing ((buffer_playing st + 1) mod N_BUFFERS) st /\
  0 <= buffer_playing (dma_handler st) < N_BUFFERS /\
  (0 <= buffer_playing st ->
   Nat.iter (Z.to_nat N_BUFFERS) dma_handler st = st) /\
  (forall st', N_BUFFERS <= buffer_playing st' < INT_MAX ->
     buffer_playing (dma_handler st') = buffer_playing st' + 1).
Proof.
  unfold N_BUFFERS. intros Hp.
  pose proof dma_handler_in_ring as Hstep. unfold N_BUFFERS in Hstep.
  split; [by apply Hstep|]. split; [|split].
  - rewrite Hstep by done. cbn [buffer_playing set_buffer_playing].
    apply Z.mod_pos_bound. lia.
  - intros H0. destruct st as [b p f ? ? ? ? ? ? ?]. cbn in Hp, H0.
    assert (p = 0 \/ p = 1 \/ p = 2 \/ p = 3) as [->|[->|[->| ->]]] by lia;
      reflexivity.
  - intros st' Hs. unfold dma_handler, N_BUFFERS.
    destruct (Z.eqb_spec (buffer_playing st') (4 - 1)); [lia|].
    cbn [buffer_playing set_buffer_playing]. apply int_add_small.
    unfold INT_MAX in Hs. int_range.
Qed.

(** *** The producer cannot lap the consumer *)

Lemma fills_S k st : fills (S k) st = fills k (drum_fill_buffer st).
Proof. unfold fills. apply Nat.iter_succ_r. Qed.

Lemma fills_stalled k st :
  buffer_playing st = buffer_to_fill st -> fills k st = st.
Proof.
  intros H. induction k as [|k IH]; [done|].
  rewrite fills_S.
  replace (drum_fill_buffer st) with st; [done|].
  unfold drum_fill_buffer. by rewrite H, Z.eqb_refl.
Qed.

Lemma fills_until_stalled d st :
  ring_inv st ->
  Z.of_nat d = (buffer_playing st - buffer_to_fill st) mod N_BUFFERS ->
  buffer_to_fill (fills d st) = buffer_playing st /\
  buffer_playing (fills d st) = buffer_playing st /\
  sequencer (fills d st) = sequencer (run (Z.to_nat BUFFER_SIZE * d) st) /\
  ring_inv (fills d st).
Proof.
  revert st. induction d as [|d IH]; intros st Hinv Hd.
  - rewrite Nat.mul_0_r. change (fills 0 st) with st.
    change (run 0 st) with st.
    pose proof Hinv as (Hf & Hp & _). split; [|done].
    unfold N_BUFFERS in *. revert Hd. Z.div_mod_to_equations. lia.
  - assert (Hne : buffer_playing st <> buffer_to_fill st).
    { intros E. rewrite E, Z.sub_diag in Hd.
      change (0 mod N_BUFFERS) with 0 in Hd. lia. }
    destruct (drum_fill_buffer_effect st Hinv Hne) as (_ & Hf & Hp & Hs & Hr).
    rewrite fills_S.
    destruct (IH (drum_fill_buffer st) Hr) as (IH1 & IH2 & IH3 & IH4).
    { rewrite Hf, Hp. destruct Hinv as (Hfr & Hpr & _).
      unfold N_BUFFERS in *. revert Hd. Z.div_mod_to_equations. lia. }
    split; [by rewrite IH1, Hp|]. split; [by rewrite IH2, Hp|].
    split; [|done].
    rewrite IH3, !sequencer_run, Hs, <- !sequencer_run, <- run_add.
    do 2 f_equal. lia.
Qed.

(** X15.  Without an interrupt the producer stops by itself: from a well
    formed ring it fills [(buffer_playing - buffer_to_fill) mod N_BUFFERS]
    blocks, at most [N_BUFFERS - 1], generating [BUFFER_SIZE] frames for
    each; then [buffer_to_fill] has caught up with [buffer_playing] and
    every further call of [drum_fill_buffer] is a no-op. *)
Theorem X15_producer_stalls_after_at_most_three_blocks st :
  ring_inv st ->
  let d := Z.to_nat ((buffer_playing st - buffer_to_fill st) mod N_BUFFERS) in
  (d <= Z.to_nat N_BUFFERS - 1)%nat /\
  buffer_to_fill (fills d st) = buffer_playing st /\
  sequencer (fills d st) = sequencer (run (Z.to_nat BUFFER_SIZE * d) st) /\
  forall n, (d <= n)%nat -> fills n st = fills d st.
Proof.
  intros Hinv d.
  pose proof (Z.mod_pos_bound (buffer_playing st - buffer_to_fill st)
                N_BUFFERS ltac:(done)) as Hd.
  destruct (fills_until_stalled d st Hinv) as (Hf & Hp & Hs & _);
    [unfold d; lia|].
  split; [unfold d, N_BUFFERS in *; lia|]. split; [done|]. split; [done|].
  intros n Hn. replace n with ((n - d) + d)%nat by lia.
  unfold fills at 1. rewrite Nat.iter_add. fold (fills d st).
  apply fills_stalled. by rewrite Hf, Hp.
Qed.

(** X16.  After an interrupt taken while the producer is stalled, the
    block that the next call of [drum_fill_buffer] overwrites is the block
    whose address that interrupt has just passed to the DMA channel; the
    producer is then stalled again. *)
Theorem X16_fill_after_interrupt_rewrites_the_block_handed_to_dma st :
  ring_inv st ->
  buffer_to_fill st = buffer_playing st ->
  let st1 := dma_handler st in
  let st2 := drum_fill_buffer st1 in
  buffer_to_fill st1 = dma_read_block st /\
  block_at st2 (dma_read_block st) =
    Some (frames (Z.to_nat BUFFER_SIZE) st) /\
  buffer_to_fill st2 = buffer_playing st2 /\
  drum_fill_buffer st2 = st2.
Proof.
  intros Hinv Hstall st1 st2. unfold dma_read_block.
  destruct Hinv as (Hf & Hp & Hlen & Hall).
  assert (H1 : st1 = set_buffer_playing
                       ((buffer_playing st + 1) mod N_BUFFERS) st).
  { unfold st1, dma_handler, N_BUFFERS in *.
    destruct (Z.eqb_spec (buffer_playing st) (4 - 1)) as [->|Hne]; [done|].
    rewrite int_add_small by int_range. by rewrite Z.mod_small by lia. }
  clearbody st1. subst st1.
  set (st1 := set_buffer_playing _ st) in *.
  assert (Hinv1 : ring_inv st1).
  { unfold ring_inv, st1. cbn [buffer buffer_playing buffer_to_fill
      set_buffer_playing].
    split; [done|]. split; [|done]. apply Z.mod_pos_bound. done. }
  assert (Hne : buffer_playing st1 <> buffer_to_fill st1).
  { unfold st1. cbn [buffer_playing buffer_to_fill set_buffer_playing].
    rewrite Hstall. unfold N_BUFFERS in *. Z.div_mod_to_equations. lia. }
  destruct (drum_fill_buffer_effect st1 Hinv1 Hne) as (Hb & Hf2 & Hp2 & _).
  fold st2 in Hb, Hf2, Hp2.
  assert (Hseq : sequencer st1 = sequencer st) by reflexivity.
  assert (Hfill1 : buffer_to_fill st1 = buffer_playing st)
    by exact Hstall.
  assert (Hplay1 : buffer_playing st1 = (buffer_playing st + 1) mod N_BUFFERS)
    by reflexivity.
  assert (Hbuf1 : buffer st1 = buffer st) by reflexivity.
  clearbody st1. clearbody st2.
  split; [done|]. split; [|split].
  - unfold block_at. destruct (Z.ltb_spec (buffer_playing st) 0); [lia|].
    rewrite Hb, Hfill1, Hbuf1, list_lookup_insert_eq
      by (unfold N_BUFFERS in *; lia).
    f_equal. by apply frames_sequencer.
  - by rewrite Hf2, Hp2, Hfill1, Hplay1.
  - unfold drum_fill_buffer.
    assert (E : buffer_playing st2 = buffer_to_fill st2)
      by (by rewrite Hf2, Hp2, Hfill1, Hplay1).
    by rewrite E, Z.eqb_refl.
Qed.

(** ** The states of the running program *)

Lemma sequencer_fields a b :
  sequencer a = sequencer b ->
  bar a = bar b /\ tickOfBar a = tickOfBar b /\
  sampleOfTick a = sampleOfTick b /\ samplesPerBeat a = samplesPerBeat b /\
  samplesPerTick a = samplesPerTick b /\ voices a = voices b /\
  index1 a = index1 b.
Proof.
  destruct a, b. unfold sequencer, set_ring. cbn. intros [=]. by subst.
Qed.

Lemma dma_handler_ring_inv st :
  ring_inv st ->
  ring_inv (dma_handler st) /\ sequencer (dma_handler st) = sequencer st /\
  buffer (dma_handler st) = buffer st /\
  buffer_to_fill (dma_handler st) = buffer_to_fill st.
Proof.
  intros (Hf & Hp & Hlen & Hall).
  rewrite dma_handler_in_ring by lia.
  unfold ring_inv. cbn [buffer buffer_playing buffer_to_fill
    set_buffer_playing].
  split; [|done]. split; [done|]. split; [|done].
  apply Z.mod_pos_bound. done.
Qed.

Lemma startup_ring :
  ring_inv (main_startup program_start) /\
  ring_holds N_BUFFERS (main_startup program_start).
Proof.
  unfold main_startup, main_prime.
  set (st0 := main_timing program_start).
  set (s0 := set_buffer_playing (-1) st0).
  assert (Hs0 : sequencer s0 = sequencer st0) by reflexivity.
  destruct (prime_loop s0 (Z.to_nat N_BUFFERS))
    as (Hseq & Hp & Hf & Hlen & Hblk); [done|done|done|lia|].
  assert (Hrun : forall k, sequencer (run k s0) = sequencer (run k st0)).
  { intros k. by rewrite !sequencer_run, Hs0. }
  clearbody s0.
  generalize dependent (for_loop (Z.to_nat N_BUFFERS)
                          (fun _ : nat => drum_fill_buffer) s0).
  intros s Hseq Hp Hf Hlen Hblk.
  set (s3 := set_buffer_playing (N_BUFFERS - 1) s).
  destruct (set_buffer_playing_fields (N_BUFFERS - 1) s)
    as (Hb3 & Hp3 & Hf3 & Hs3). fold s3 in Hb3, Hp3, Hf3, Hs3.
  clearbody s3.
  assert (Hr3 : ring_inv s3).
  { unfold ring_inv. rewrite Hb3, Hp3, Hf3, Hf, Hlen.
    change (Z.of_nat (Z.to_nat N_BUFFERS) mod N_BUFFERS) with 0.
    unfold N_BUFFERS. repeat split; try lia.
    apply Forall_lookup. intros b blk Hb.
    assert (Hlt : (b < Z.to_nat N_BUFFERS)%nat).
    { apply lookup_lt_Some in Hb. by rewrite Hlen in Hb. }
    rewrite (Hblk b Hlt), decide_True in Hb by done.
    injection Hb as <-. apply frames_length. }
  destruct (dma_handler_ring_inv s3 Hr3) as (Hr & Hs & Hb & Hfl).
  split; [done|]. unfold ring_holds.
  rewrite Hs, Hb, Hfl, Hs3, Hb3, Hf3, Hf.
  split; [lia|]. split; [|split; [done|]].
  - assert (E : (Z.to_nat BUFFER_SIZE * Z.to_nat N_BUFFERS)%nat =
                Z.to_nat (BUFFER_SIZE * N_BUFFERS))
      by (unfold BUFFER_SIZE, N_BUFFERS; lia).
    by rewrite Hseq, Hrun, E.
  - intros j Hj. unfold N_BUFFERS in Hj.
    rewrite Z.mod_small by (unfold N_BUFFERS; lia).
    rewrite Hblk, decide_True by (unfold N_BUFFERS; lia).
    assert (E : (Z.to_nat BUFFER_SIZE * Z.to_nat j)%nat =
                Z.to_nat (BUFFER_SIZE * j))
      by (unfold BUFFER_SIZE; lia).
    f_equal. apply frames_sequencer. by rewrite Hrun, E.
Qed.

Lemma fill_ring_holds m st :
  ring_inv st -> ring_holds m st ->
  ring_inv (drum_fill_buffer st) /\
  (ring_holds m (drum_fill_buffer st) \/
   ring_holds (m + 1) (drum_fill_buffer st)).
Proof.
  intros Hinv (Hm & Hseq & Hf & Hblk).
  destruct (decide (buffer_playing st = buffer_to_fill st)) as [Heq|Hne].
  { replace (drum_fill_buffer st) with st;
      [by split; [|left]|].
    unfold drum_fill_buffer. by rewrite Heq, Z.eqb_refl. }
  destruct (drum_fill_buffer_effect st Hinv Hne) as (Hb & Hf' & Hp' & Hs' & Hr').
  split; [done|]. right. unfold ring_holds.
  rewrite Hb, Hf', Hs', Hf.
  pose proof Hinv as (Hfr & _ & Hlen & _).
  unfold N_BUFFERS, BUFFER_SIZE in *.
  split; [lia|]. split; [|split].
  - rewrite sequencer_run, Hseq, <- sequencer_run, <- run_add.
    do 2 f_equal. lia.
  - Z.div_mod_to_equations. lia.
  - intros j Hj. destruct (decide (j = m)) as [->|Hjm].
    + rewrite list_lookup_insert_eq by lia.
      f_equal. by apply frames_sequencer.
    + rewrite list_lookup_insert_ne.
      * apply Hblk. lia.
      * assert (j mod 4 <> m mod 4) by (Z.div_mod_to_equations; lia).
        pose proof (Z.mod_pos_bound j 4). pose proof (Z.mod_pos_bound m 4).
        lia.
Qed.

Lemma reachable_ring st :
  reachable st -> ring_inv st /\ exists m, ring_holds m st.
Proof.
  unfold reachable. revert st. apply rtc_ind_r.
  - destruct startup_ring as [Hr Hh]. split; [done|by eexists].
  - intros y z _ Hstep [IHr [m IHm]]. destruct Hstep as [st|st].
    + destruct (fill_ring_holds m st IHr IHm) as [Hr [Hh|Hh]];
        (split; [done|by eexists]).
    + destruct (dma_handler_ring_inv st IHr) as (Hr & Hs & Hb & Hf).
      split; [done|]. exists m. unfold ring_holds in *.
      by rewrite Hs, Hb, Hf.
Qed.

(** X17.  In every state of the running program (any interleaving of
    calls of [drum_fill_buffer] and interrupts after the start-up) both
    cursors are inside the ring and the ring has its [N_BUFFERS] blocks of
    [BUFFER_SIZE] words; the frames generated so far are a whole number
    [m] of blocks, [buffer_to_fill] is [m mod N_BUFFERS], and the ring
    holds the last [N_BUFFERS] blocks generated, each one whole. *)
Theorem X17_ring_holds_the_last_four_blocks st :
  reachable st -> ring_inv st /\ exists m, ring_holds m st.
Proof. apply reachable_ring. Qed.

(** X18.  In every state of the running program the transport is inside
    its bounds, [index1] is between 0 and 400, [samplesPerTick] is 949,
    and, on a bank of waveforms of at least two [int16_t] samples, every
    voice is within the ranges of the program with its cursor inside its
    waveform. *)
Theorem X18_program_state_invariants st :
  reachable st ->
  transport_inv st /\ index1_inv st /\ samplesPerTick st = 949 /\
  (bank_ok -> voices_inv st).
Proof.
  intros (_ & m & _ & Hseq & _)%reachable_ring.
  set (st0 := main_timing program_start) in *.
  assert (Hspt : samplesPerTick st0 = 949) by (vm_compute; reflexivity).
  assert (Hfps : in_int (samplesPerTick st0)) by (rewrite Hspt; int_range).
  assert (Hinv : transport_inv st0).
  { unfold transport_inv. rewrite Hspt. cbn.
    unfold BAR_LEN, LOOP_BARS. lia. }
  assert (Hidx : index1_inv st0) by (unfold index1_inv; cbn; lia).
  set (k := Z.to_nat (BUFFER_SIZE * m)) in *.
  pose proof (run_transport_inv k st0 Hfps Hinv) as Ht.
  pose proof (run_index1_inv k st0 Hidx) as Hi.
  pose proof (run_samplesPerTick k st0) as Hs.
  assert (Hv : bank_ok -> voices_inv (run k st0)).
  { intros Hbank. by apply run_voices_inv, program_voices_inv. }
  clearbody st0.
  destruct (sequencer_fields _ _ Hseq) as (E1 & E2 & E3 & _ & E5 & E6 & E7).
  unfold transport_inv, index1_inv, voices_inv in *.
  rewrite E1, E2, E3, E5, E6, E7.
  split; [exact Ht|]. split; [exact Hi|]. split; [congruence|exact Hv].
Qed.

End Engine.

(** ** The test tone against the mix *)

(** C1 (what the code does).  Whatever the bank and the voices, the word
    that [generate_sample] returns is the test tone: both halves are the
    entry of the tone table that [index1] selects.  It is not the word that
    the statement left in a comment would build from the two accumulators:
    for every tone table there is a bank on which the first frame of the
    program returns something else. *)
Theorem C1_emitted_word_is_the_test_tone (tone : Z -> Z) :
  (forall kick clap snare hihat perc st,
     emitted kick clap snare hihat perc tone st =
       smpl_d1 (tone (tone_index st)) (tone (tone_index st))) /\
  exists kick clap snare hihat perc,
    emitted kick clap snare hihat perc tone (main_timing program_start) <>
    mixed_word (frame_output kick clap snare hihat perc
                  (main_timing program_start)).
Proof.
  split; [intros; apply emitted_eq|].
  destruct (decide (smpl_d1 (tone 0) (tone 0) = 0)) as [H0|H0].
  - exists example_kick, example_clap, example_snare, example_hihat,
      example_perc.
    rewrite emitted_eq.
    change (tone_index (main_timing program_start)) with 0. rewrite H0.
    vm_compute. discriminate.
  - exists [0; 0], [0; 0], [0; 0], [0; 0], [0; 0].
    rewrite emitted_eq.
    change (tone_index (main_timing program_start)) with 0.
    replace (mixed_word _) with 0 by (vm_compute; reflexivity).
    exact H0.
Qed.

(** ** The program on the example bank *)

Example SAMPLE_RATE_value : SAMPLE_RATE = 44138.
Proof. vm_compute. reflexivity. Qed.

(** [bars] has one entry for each bar of the loop, and every entry
    designates one of the three patterns. *)
Example arrangement_length : Z.of_nat (length bars) = LOOP_BARS.
Proof. reflexivity. Qed.

Example arrangement_patterns :
  Forall (fun k => is_Some (mjoin (patterns !! Z.to_nat k))) bars.
Proof. repeat constructor; by eexists. Qed.

(** The first frame: the kick and the percussion are triggered (row 0 and
    row 4 of [pattern0] start with ['1']), the other voices are read at
    index 0.  Left: 192*9000*16 - 40*40*16 + 80*7*18; right:
    192*9000*16 - 40*40*16 + 80*7*14. *)
Example first_frame_amplitudes :
  frame_amplitudes example_kick example_clap example_snare example_hihat
    example_perc (main_timing program_start) = [9000; 120; -40; 7; 0; 0].
Proof. vm_compute. reflexivity. Qed.

Example first_frame_output :
  frame_output example_kick example_clap example_snare example_hihat
    example_perc (main_timing program_start) = (27632480, 27630240).
Proof. vm_compute. reflexivity. Qed.

(** What the call returns is the tone word: 15000 in both halves. *)
Example first_frame_word :
  emitted example_kick example_clap example_snare example_hihat example_perc
    example_tone (main_timing program_start) = 15000 + 15000 * 2 ^ 16.
Proof. vm_compute. reflexivity. Qed.

(** The cursors when [main] enters its loop: 196 frames generated, the
    producer stalled until the first interrupt. *)
Example ring_after_startup :
  let st := main_startup example_kick example_clap example_snare
              example_hihat example_perc example_tone program_start in
  (buffer_to_fill st, buffer_playing st, index1 st, sampleOfTick st) =
  (0, 0, 196, 196).
Proof. vm_compute. reflexivity. Qed.

#[local] Abbreviation on_example f :=
  (f example_kick example_clap example_snare example_hihat example_perc)
  (only parsing).

(** At program start both cursors are 0: the call does nothing, also
    when interrupts arrive. *)
Lemma C2_fill_is_noop_when_caught_up_witness :
  on_example drum_fill_buffer_irq example_ramp (fun _ => 1%nat) program_start
    = program_start.
Proof.
  refine (proj1 (proj1 (on_example C2_fill_is_noop_when_caught_up example_ramp
                          (fun _ => 1%nat) program_start) _)).
  reflexivity.
Defined.

(** The producer writes into the block that [buffer_playing] designates.
    After the start-up and three interrupts the cursors are 3 and 0, and a
    call of [drum_fill_buffer] passes its test; an interrupt taken before
    the store of iteration 20 moves [buffer_playing] to 0, and that store
    and the 28 after it go into [buffer[0]]. *)
Lemma C2_interrupt_during_fill_writes_play_block :
  let st := interrupts 3
              (on_example main_startup example_ramp program_start) in
  let irq := fun i : nat => if (i =? 20)%nat then 1%nat else 0%nat in
  let s := on_example at_store example_ramp irq 20 st in
  on_example reachable example_ramp st /\
  (buffer_playing st, buffer_to_fill st) = (3, 0) /\
  on_example writes_play_block example_ramp irq st = true /\
  (buffer_playing s, buffer_to_fill s) = (0, 0) /\
  block_at (on_example fill_body example_ramp 20 s) (buffer_playing s) <>
    block_at s (buffer_playing s).
Proof.
  intros st irq s. split; [apply interrupts_steps|].
  split; [vm_compute; reflexivity|].
  split; [vm_compute; reflexivity|].
  split; [vm_compute; reflexivity|].
  vm_compute. discriminate.
Qed.

Lemma C3_transport_advances_one_frame_witness :
  let st := main_timing program_start in
  transport (on_example next example_tone st) = (0, 0, 1).
Proof.
  intros st.
  refine (proj1 (on_example C3_transport_advances_one_frame example_tone
                   st _ _)).
  - unfold in_int, INT_MIN, INT_MAX. vm_compute. split; discriminate.
  - unfold transport_inv. vm_compute. repeat split; discriminate.
Defined.

(** Bar 3 plays [pattern2], whose row 3 (the hi-hat) starts with ['5'];
    the example hi-hat has 6 samples. *)
Lemma C4_trigger_5_cursor_witness :
  let st := set_bar 3 (main_timing program_start) in
  voices (trigger_phase st) !! 3%nat = Some (mkVoice 18 80 3 1 48) /\
  voices (on_example run example_tone 4 st) !! 3%nat =
    Some (mkVoice 18 80 3 5 48) /\
  voices (on_example run example_tone 5 st) !! 3%nat =
    Some (mkVoice 18 80 3 0 48).
Proof.
  intros st.
  pose proof (on_example C4_trigger_5_cursor example_tone st 3%nat
                (mkVoice 18 80 3 0 0) (mkSounds example_hihat 6)) as H.
  destruct H as [H1 H2].
  - reflexivity.
  - reflexivity.
  - reflexivity.
  - simpl. lia.
  - reflexivity.
  - unfold INT_MAX. simpl. lia.
  - assert (Hquiet : forall j, (1 <= j < 5)%nat ->
              triggered (on_example run example_tone j st) 3 = false).
    { intros j Hj.
      assert (j = 1 \/ j = 2 \/ j = 3 \/ j = 4)%nat as [->|[->|[->| ->]]]
        by lia; vm_compute; reflexivity. }
    split; [exact H1|]. split.
    + apply (H2 4%nat); [lia|]. intros j Hj. apply Hquiet. lia.
    + apply (H2 5%nat); [lia|]. exact Hquiet.
Defined.

Lemma C6_pan_invariance_witness :
  let st := main_timing program_start in
  let smp := [0; 0; 0; 0; -3000; 0] in
  fst (mix_phase st smp) + snd (mix_phase st smp) = -3000 * (0 + 30) * 32.
Proof.
  intros st smp.
  refine (proj2 (C6_pan_invariance st smp 4%nat (mkVoice 28 30 4 0 0)
                   (-3000) _ _ _ _ _ _) _).
  - unfold N_VOICES. lia.
  - reflexivity.
  - reflexivity.
  - intros j Hj. do 6 (destruct j as [|j]; [reflexivity || lia|]).
    reflexivity.
  - unfold in_int16. lia.
  - simpl. lia.
  - simpl. lia.
Defined.

(** At time zero the snare (voice 2) is idle and is not triggered; its
    first amplitude on the example bank is -40. *)
Lemma C9_idle_voice_reads_first_amplitude_witness :
  let st := main_timing program_start in
  on_example frame_amplitudes st !! 2%nat = Some (-40).
Proof.
  intros st.
  refine (proj1 (on_example C9_idle_voice_reads_first_amplitude example_tone
                   st 2%nat (mkVoice 16 40 2 0 0) _ _ _ _ _)).
  - unfold N_VOICES. lia.
  - reflexivity.
  - reflexivity.
  - simpl. lia.
  - reflexivity.
Defined.

(** Row 0 of the example pattern starts with ['!'], which is not a digit
    and is below ['1']: the kick is triggered with emphasis
    [(33 - 49) * 12]. *)
Lemma C10_non_space_cell_triggers_witness :
  let st := main_timing program_start in
  voices (trigger_phase_in example_patterns example_bars st) !! 0%nat =
    Some (mkVoice 16 192 0 1 (-192)).
Proof.
  intros st.
  refine (proj1 (C10_non_space_cell_triggers example_patterns example_bars
                   st 0%nat (mkVoice 16 192 0 0 0) "!"%char _ _ _ _)).
  - reflexivity.
  - unfold N_VOICES. lia.
  - reflexivity.
  - reflexivity.
Defined.

(** After priming the fill cursor is not [N_BUFFERS - 1] blocks ahead of
    the play cursor, whichever value of the play cursor is taken as the
    starting one: the one set when priming ends (3), the one used while
    priming (-1), or the initial one (0). *)
Lemma C7_fill_cursor_is_not_three_ahead :
  let st := on_example main_prime example_tone (main_timing program_start) in
  buffer_to_fill st = 0 /\
  buffer_playing st = 3 /\
  (buffer_to_fill st - buffer_playing st) mod N_BUFFERS <> N_BUFFERS - 1 /\
  (buffer_to_fill st - -1) mod N_BUFFERS <> N_BUFFERS - 1 /\
  (buffer_to_fill st - buffer_playing program_start) mod N_BUFFERS
    <> N_BUFFERS - 1.
Proof.
  intros st. vm_compute. repeat split; discriminate.
Qed.

(** ** The further properties on the example bank *)

(** The example bank can be played, and the voices of the program are
    within their ranges on it. *)
Ltac example_bank_ok :=
  unfold bank_ok, waveform_ok, array_len, INT_MAX;
  repeat split; try (simpl; lia);
  repeat (constructor; [unfold in_int16; lia|]); constructor.

Ltac example_voices_inv :=
  split; [reflexivity|];
  repeat (constructor; [unfold voice_inv, sounds, array_len; simpl; lia|]);
  constructor.

Ltac example_ring_inv :=
  unfold ring_inv;
  split; [vm_compute; split; [discriminate|reflexivity]|];
  split; [vm_compute; split; [discriminate|reflexivity]|];
  split; [reflexivity|];
  repeat (constructor; [reflexivity|]); constructor.

(** The first cell of the kick row of [pattern0]. *)
Lemma X1_pattern_reads_in_bounds_witness :
  let st := main_timing program_start in
  exists c,
    cell (bar st) 0%nat (tickOfBar st) = Some c /\
    (c = " "%char \/
     trigger_digit c = true /\ forall v, 0 <= emph (trigger c v) <= 96).
Proof.
  intros st.
  refine (X1_pattern_reads_in_bounds st 0%nat _ _).
  - unfold transport_inv. vm_compute. repeat split; discriminate.
  - unfold N_VOICES. lia.
Defined.

Lemma X2_call_keeps_pan_volume_sample_witness :
  let st := main_timing program_start in
  let v := mkVoice 16 40 2 0 0 in
  exists v',
    voices (on_example next example_tone st) !! 2%nat = Some v' /\
    pan v' = pan v /\ volume v' = volume v /\ sample v' = sample v /\
    (triggered st 2 = false -> emph v' = emph v) /\
    length (voices (on_example next example_tone st)) = length (voices st).
Proof.
  intros st v.
  refine (on_example X2_call_keeps_pan_volume_sample example_tone
            st 2%nat v _ _).
  - unfold N_VOICES. lia.
  - reflexivity.
Defined.

(** The clap voice with its sample reference set to -1. *)
Lemma X3_negative_sample_voice_is_mute_witness :
  let v := mkVoice 16 40 (-1) 0 0 in
  let st := set_voices (<[1%nat := v]> voices_init)
              (main_timing program_start) in
  on_example frame_amplitudes (on_example run example_tone 7 st) !! 1%nat
    = Some 0.
Proof.
  intros v st.
  refine (proj1 (on_example X3_negative_sample_voice_is_mute example_tone
                   st 1%nat v _ _ _ 7%nat)).
  - unfold N_VOICES. lia.
  - reflexivity.
  - simpl. lia.
Defined.

(** The hi-hat in the middle of its waveform (cursor 4) when the ['5'] of
    bar 3 triggers it: the call reads index 1 of the example hi-hat. *)
Lemma X4_trigger_restarts_the_voice_witness :
  let v := mkVoice 18 80 3 4 0 in
  let st := set_voices (<[3%nat := v]> voices_init)
              (set_bar 3 (main_timing program_start)) in
  on_example frame_amplitudes st !! 3%nat = Some 800 /\
  voices (on_example next example_tone st) !! 3%nat =
    Some (mkVoice 18 80 3 2 48).
Proof.
  intros v st.
  refine (on_example X4_trigger_restarts_the_voice example_tone
            st 3%nat v "5"%char _ _ _ _ _).
  - reflexivity.
  - reflexivity.
  - discriminate.
  - reflexivity.
  - simpl. lia.
Defined.

Lemma X5_waveform_reads_in_bounds_witness :
  let st := main_timing program_start in
  on_example voices_inv (on_example next example_tone st).
Proof.
  intros st.
  refine (proj1 (proj2 (on_example X5_waveform_reads_in_bounds example_tone
                          st _ _))).
  - example_bank_ok.
  - example_voices_inv.
Defined.

Lemma X6_mix_never_overflows_witness :
  let st := main_timing program_start in
  mix_phase_checked
    (fst (on_example play_phase (trigger_phase st)))
    (on_example frame_amplitudes st) = Some (on_example frame_output st).
Proof.
  intros st.
  refine (proj1 (on_example X6_mix_never_overflows example_tone st _ _)).
  - example_bank_ok.
  - example_voices_inv.
Defined.

Lemma X8_emitted_words_have_period_400_witness :
  let st := main_timing program_start in
  on_example emitted example_tone (on_example run example_tone (5 + 400) st) =
  on_example emitted example_tone (on_example run example_tone 5 st).
Proof.
  intros st.
  refine (proj1 (on_example X8_emitted_words_have_period_400 example_tone
                   st 5%nat _)).
  unfold index1_inv. simpl. lia.
Defined.

Lemma X9_transport_period_is_the_arrangement_witness :
  let st := main_timing program_start in
  transport (on_example run example_tone (Z.to_nat (loop_frames st)) st) =
  transport st.
Proof.
  intros st.
  refine (proj1 (on_example X9_transport_period_is_the_arrangement
                   example_tone st _ _)).
  - unfold in_int, INT_MIN, INT_MAX. vm_compute. split; discriminate.
  - unfold transport_inv. vm_compute. repeat split; discriminate.
Defined.

(** Before [main] has set the timing both counters are 0. *)
Lemma X10_transport_stuck_without_timing_witness :
  transport (on_example run example_tone 100 program_start) =
  (bar program_start, tickOfBar program_start,
   sampleOfTick program_start + Z.of_nat 100).
Proof.
  refine (on_example X10_transport_stuck_without_timing example_tone
            program_start 100%nat _ _ _).
  - simpl. lia.
  - unfold INT_MIN. simpl. lia.
  - unfold INT_MAX. simpl. lia.
Defined.

Lemma X11_generate_sample_ignores_the_ring_witness :
  let st := main_timing program_start in
  let st' := set_buffer_playing 2 (set_buffer_to_fill 1 st) in
  on_example emitted example_tone st = on_example emitted example_tone st'.
Proof.
  intros st st'.
  refine (proj1 (on_example X11_generate_sample_ignores_the_ring example_tone
                   st st' _)).
  reflexivity.
Defined.

Lemma X12_returned_word_halves_witness :
  smpl_d2_0 (smpl_d1 (-1) 30000) = -1 /\
  smpl_d2_1 (smpl_d1 (-1) 30000) = 30000.
Proof.
  refine (proj2 (proj2 (on_example X12_returned_word_halves example_tone
                          program_start (-1) 30000 _ _)));
    unfold in_int16; lia.
Defined.

(** The play cursor two blocks ahead of the fill cursor. *)
Lemma X13_fill_writes_exactly_one_block_witness :
  let st := set_buffer_playing 2 (main_timing program_start) in
  block_at (on_example drum_fill_buffer example_tone st) (buffer_to_fill st) =
    Some (on_example frames example_tone (Z.to_nat BUFFER_SIZE) st).
Proof.
  intros st.
  refine (proj1 (on_example X13_fill_writes_exactly_one_block example_tone
                   st _ _)).
  - example_ring_inv.
  - vm_compute. discriminate.
Defined.

Lemma X14_dma_handler_cycles_the_play_cursor_witness :
  dma_handler program_start =
  set_buffer_playing ((buffer_playing program_start + 1) mod N_BUFFERS)
    program_start.
Proof.
  refine (proj1 (X14_dma_handler_cycles_the_play_cursor program_start _)).
  unfold N_BUFFERS. simpl. lia.
Defined.

(** The play cursor three blocks ahead: three fills, then nothing. *)
Lemma X15_producer_stalls_after_at_most_three_blocks_witness :
  let st := set_buffer_playing 3 (main_timing program_start) in
  let d := Z.to_nat ((buffer_playing st - buffer_to_fill st) mod N_BUFFERS) in
  on_example fills example_tone 5 st = on_example fills example_tone d st.
Proof.
  intros st.
  refine (proj2 (proj2 (proj2
            (on_example X15_producer_stalls_after_at_most_three_blocks
               example_tone st _))) 5%nat _).
  - example_ring_inv.
  - vm_compute. lia.
Defined.

(** The state after the timing is set has both cursors on block 0. *)
Lemma X16_fill_after_interrupt_rewrites_the_block_handed_to_dma_witness :
  let st := main_timing program_start in
  block_at (on_example drum_fill_buffer example_tone (dma_handler st))
    (dma_read_block st) =
    Some (on_example frames example_tone (Z.to_nat BUFFER_SIZE) st).
Proof.
  intros st.
  refine (proj1 (proj2
            (on_example
               X16_fill_after_interrupt_rewrites_the_block_handed_to_dma
               example_tone st _ _))).
  - example_ring_inv.
  - reflexivity.
Defined.

(** The state after the start-up, one interrupt and one call of
    [drum_fill_buffer]. *)
Lemma X17_ring_holds_the_last_four_blocks_witness :
  let st := on_example drum_fill_buffer example_tone
              (dma_handler
                 (on_example main_startup example_tone program_start)) in
  ring_inv st /\ exists m, on_example ring_holds example_tone m st.
Proof.
  intros st.
  refine (on_example X17_ring_holds_the_last_four_blocks example_tone st _).
  unfold reachable, st.
  eapply rtc_l; [apply step_irq|].
  apply rtc_once. apply step_fill.
Defined.

Lemma X18_program_state_invariants_witness :
  let st := dma_handler
              (on_example main_startup example_tone program_start) in
  samplesPerTick st = 949.
Proof.
  intros st.
  refine (proj1 (proj2 (proj2
            (on_example X18_program_state_invariants example_tone st _)))).
  unfold reachable, st.
  apply rtc_once. apply step_irq.
Defined.
